(** * ImmutableValidator: initialisation and read discipline of immutables

    A shallow embedding of [libsolidity/analysis/ImmutableValidator.cpp].
    The validator is an AST visitor with mutable members; here the members
    are the fields of [State], every method is a function from [State] to
    [Result], and the recursion through [accept] is bounded by a depth
    counter.  Pointers into the AST are modelled as typed addresses that
    are dereferenced through a read-only store ([AST]). *)

From Stdlib Require Import String ZArith List.
From stdpp Require Import gmap.
Import ListNotations.
Open Scope string_scope.

Set Warnings "-register-all".

(** ** The AST as the validator reads it *)

Record SourceLocation := mkLoc { loc_start : Z; loc_end : Z }.

(** [CallableDeclaration const*]: the dynamic type of the pointee is part
    of the pointer, as the two [dynamic_cast]s of the source observe it. *)
Inductive CallableDeclarationPtr :=
| FunctionPtr (p : nat)
| ModifierPtr (p : nat).

(** [Declaration const*]. *)
Inductive DeclarationPtr :=
| VariablePtr (p : nat)
| CallablePtr (c : CallableDeclarationPtr)
| OtherDeclarationPtr (p : nat).

#[global] Instance CallableDeclarationPtr_eq_dec : EqDecision CallableDeclarationPtr.
Proof. solve_decision. Defined.

#[global] Instance CallableDeclarationPtr_countable : Countable CallableDeclarationPtr.
Proof.
  refine (inj_countable'
            (fun c => match c with FunctionPtr p => inl p | ModifierPtr p => inr p end)
            (fun s => match s with inl p => FunctionPtr p | inr p => ModifierPtr p end) _).
  intros []; reflexivity.
Defined.

(** The values of [FunctionType::Kind] the validator distinguishes. *)
Inductive FunctionKind :=
| Internal | External | Declaration | Event | OtherKind.

(** [Type const*] of an annotation, up to the casts of the source.
    [fn_declaration = None] is [!hasDeclaration()]. *)
Inductive TypePointer :=
| FunctionType (kind : FunctionKind) (fn_declaration : option DeclarationPtr)
| FixedBytesType (numBytes : nat)
| OtherType.

Record ExpressionAnnotation := {
  type : TypePointer;
  referencedDeclaration : option DeclarationPtr;
  lValueRequested : bool;
  lValueOfOrdinaryAssignment : bool
}.

(** What [Identifier] and [MemberAccess] share as [Expression]s. *)
Record Expression := {
  location : SourceLocation;
  annotation : ExpressionAnnotation
}.

(** The nodes whose [visit] the validator overrides, and [GenericNode] for
    every other node: its children are visited in order.  A
    [ModifierInvocation] is a [GenericNode] whose first child is the
    [Identifier] naming the modifier or the base contract. *)
Inductive ASTNode :=
| Identifier (e : Expression)
| MemberAccess (e : Expression) (memberName : string) (expression : ASTNode)
| IfStatement (condition trueStatement : ASTNode) (falseStatement : option ASTNode)
| WhileStatement (condition body : ASTNode)
| Return (loc : SourceLocation) (expression : option ASTNode)
| GenericNode (ty : TypePointer) (children : list ASTNode).

(** [_node.annotation().type] of an expression node. *)
Definition annotationType (node : ASTNode) : TypePointer :=
  match node with
  | Identifier e | MemberAccess e _ _ => type (annotation e)
  | GenericNode ty _ => ty
  | _ => OtherType
  end.

Record VariableDeclaration := {
  var_location : SourceLocation;
  isStateVariable : bool;
  immutable : bool;
  var_contract : Z;              (* annotation().contract->id() *)
  value : option ASTNode
}.

(** Modelled from the spec: the [FunctionType] built from a function
    definition is declared outside this file; the callable type of a
    function is kept as the canonical names of its parameter and return
    types, which [hasEqualParameterTypes] and [hasEqualReturnTypes]
    compare. *)
Record FunctionDefinition := {
  fn_name : string;
  isConstructor : bool;
  fn_virtualSemantics : bool;
  fn_contract : Z;               (* annotation().contract->id() *)
  parameterTypes : list string;
  returnTypes : list string;
  modifiers : list ASTNode;
  fn_body : option ASTNode       (* [None]: not implemented *)
}.

Record ModifierDefinition := {
  mod_name : string;
  mod_virtualSemantics : bool;
  mod_body : ASTNode
}.

(** The pointees.  Addresses are dereferenced through these tables. *)
Record AST := {
  variableDeclaration : nat -> VariableDeclaration;
  functionDefinition : nat -> FunctionDefinition;
  modifierDefinition : nat -> ModifierDefinition
}.

Record InheritanceSpecifier := {
  arguments : option (list ASTNode)
}.

Record ContractDefinition := {
  contract_id : Z;
  constructor : option nat;
  baseContracts : list InheritanceSpecifier;
  definedFunctions : list nat;
  functionModifiers : list nat
}.

(** [m_currentContract]: what [analyze] and the two checkers read of it.
    [linearizedBaseContracts] starts with the contract itself and ends
    with its most basic ancestor. *)
Record CurrentContract := {
  contract_location : SourceLocation;
  stateVariablesIncludingInherited : list nat;
  linearizedBaseContracts : list ContractDefinition
}.

(** ** Diagnostics *)

Record Error := {
  err_location : SourceLocation;
  err_secondary : option (string * SourceLocation);
  err_message : string
}.

Definition msgNotInConstructor : string :=
  "Immutable variables can only be initialized inline or directly in the constructor.".
Definition msgOtherContract : string :=
  "Immutable variables must be initialized in the constructor of the contract they are defined in.".
Definition msgInLoop : string :=
  "Immutable variables can only be initialized once, not in a while statement.".
Definition msgInBranch : string :=
  "Immutable variables must be initialized unconditionally, not in an if statement.".
Definition msgNotInBody : string :=
  "Immutable variables must be initialized in the constructor body.".
Definition msgAlreadyInitialized : string :=
  "Immutable state variable already initialized.".
Definition msgRead : string :=
  "Immutable variables cannot be read during contract creation time, which means they cannot be read in the constructor or any function or modifier called from it.".
Definition msgNotAllInitialized : string :=
  "Construction controlflow ends without initializing all immutable state variables.".

(** ** The validator's members *)

Record State := {
  m_readingOfImmutableAllowed : bool;
  m_initializationOfImmutableAllowed : bool;
  m_inBranch : bool;
  m_inLoop : bool;
  m_currentConstructor : option nat;
  m_initializedStateVariables : gset nat;
  m_visitedCallables : gset CallableDeclarationPtr;
  m_errors : list Error          (* what [m_errorReporter] has received, oldest first *)
}.

Definition set_readingOfImmutableAllowed (b : bool) (st : State) : State :=
  {| m_readingOfImmutableAllowed := b;
     m_initializationOfImmutableAllowed := m_initializationOfImmutableAllowed st;
     m_inBranch := m_inBranch st; m_inLoop := m_inLoop st;
     m_currentConstructor := m_currentConstructor st;
     m_initializedStateVariables := m_initializedStateVariables st;
     m_visitedCallables := m_visitedCallables st;
     m_errors := m_errors st |}.

Definition set_initializationOfImmutableAllowed (b : bool) (st : State) : State :=
  {| m_readingOfImmutableAllowed := m_readingOfImmutableAllowed st;
     m_initializationOfImmutableAllowed := b;
     m_inBranch := m_inBranch st; m_inLoop := m_inLoop st;
     m_currentConstructor := m_currentConstructor st;
     m_initializedStateVariables := m_initializedStateVariables st;
     m_visitedCallables := m_visitedCallables st;
     m_errors := m_errors st |}.

Definition set_inBranch (b : bool) (st : State) : State :=
  {| m_readingOfImmutableAllowed := m_readingOfImmutableAllowed st;
     m_initializationOfImmutableAllowed := m_initializationOfImmutableAllowed st;
     m_inBranch := b; m_inLoop := m_inLoop st;
     m_currentConstructor := m_currentConstructor st;
     m_initializedStateVariables := m_initializedStateVariables st;
     m_visitedCallables := m_visitedCallables st;
     m_errors := m_errors st |}.

Definition set_inLoop (b : bool) (st : State) : State :=
  {| m_readingOfImmutableAllowed := m_readingOfImmutableAllowed st;
     m_initializationOfImmutableAllowed := m_initializationOfImmutableAllowed st;
     m_inBranch := m_inBranch st; m_inLoop := b;
     m_currentConstructor := m_currentConstructor st;
     m_initializedStateVariables := m_initializedStateVariables st;
     m_visitedCallables := m_visitedCallables st;
     m_errors := m_errors st |}.

Definition set_currentConstructor (c : option nat) (st : State) : State :=
  {| m_readingOfImmutableAllowed := m_readingOfImmutableAllowed st;
     m_initializationOfImmutableAllowed := m_initializationOfImmutableAllowed st;
     m_inBranch := m_inBranch st; m_inLoop := m_inLoop st;
     m_currentConstructor := c;
     m_initializedStateVariables := m_initializedStateVariables st;
     m_visitedCallables := m_visitedCallables st;
     m_errors := m_errors st |}.

Definition set_initializedStateVariables (s : gset nat) (st : State) : State :=
  {| m_readingOfImmutableAllowed := m_readingOfImmutableAllowed st;
     m_initializationOfImmutableAllowed := m_initializationOfImmutableAllowed st;
     m_inBranch := m_inBranch st; m_inLoop := m_inLoop st;
     m_currentConstructor := m_currentConstructor st;
     m_initializedStateVariables := s;
     m_visitedCallables := m_visitedCallables st;
     m_errors := m_errors st |}.

Definition set_visitedCallables (s : gset CallableDeclarationPtr) (st : State) : State :=
  {| m_readingOfImmutableAllowed := m_readingOfImmutableAllowed st;
     m_initializationOfImmutableAllowed := m_initializationOfImmutableAllowed st;
     m_inBranch := m_inBranch st; m_inLoop := m_inLoop st;
     m_currentConstructor := m_currentConstructor st;
     m_initializedStateVariables := m_initializedStateVariables st;
     m_visitedCallables := s;
     m_errors := m_errors st |}.

(** Modelled from the spec: [ErrorReporter::typeError] is declared outside
    this file; the diagnostic sink keeps every report, in order. *)
Definition typeError (loc : SourceLocation) (secondary : option (string * SourceLocation))
    (message : string) (st : State) : State :=
  {| m_readingOfImmutableAllowed := m_readingOfImmutableAllowed st;
     m_initializationOfImmutableAllowed := m_initializationOfImmutableAllowed st;
     m_inBranch := m_inBranch st; m_inLoop := m_inLoop st;
     m_currentConstructor := m_currentConstructor st;
     m_initializedStateVariables := m_initializedStateVariables st;
     m_visitedCallables := m_visitedCallables st;
     m_errors := m_errors st ++
       [ {| err_location := loc; err_secondary := secondary; err_message := message |} ] |}.

(** ** Outcomes

    A method either returns, trips a [solAssert], or (in the model only)
    exceeds the depth it was given. *)
Inductive Result :=
| Ok (st : State)
| AssertionFailed
| OutOfFuel.

Definition bind (r : Result) (k : State -> Result) : Result :=
  match r with
  | Ok st => k st
  | AssertionFailed => AssertionFailed
  | OutOfFuel => OutOfFuel
  end.

Notation "'do' st <- r ; k" := (bind r (fun st => k))
  (at level 10, st name, r at level 100, k at level 200).

(** A range-based [for] whose body may fail. *)
Fixpoint forEach {A : Type} (l : list A) (body : A -> State -> Result) (st : State) : Result :=
  match l with
  | [] => Ok st
  | x :: l' => do st' <- body x st; forEach l' body st'
  end.

(** ** The visitor *)

Section Visitor.

Variable ast : AST.
Variable m_currentContract : CurrentContract.

(** [ImmutableValidator::findFinalOverride], lines 247-271.  The two
    inner loops return from the function at the first match. *)
Fixpoint findFunction (origin : FunctionDefinition) (funcs : list nat) : option nat :=
  match funcs with
  | [] => None
  | funcDef :: rest =>
      let fpA := functionDefinition ast funcDef in
      let fpB := origin in
      if String.eqb (fn_name fpA) (fn_name origin)
         && (bool_decide (returnTypes fpA = returnTypes fpB)
             && bool_decide (parameterTypes fpA = parameterTypes fpB))
      then Some funcDef
      else findFunction origin rest
  end.

Fixpoint findModifier (name : string) (mods : list nat) : option nat :=
  match mods with
  | [] => None
  | modDef :: rest =>
      if String.eqb name (mod_name (modifierDefinition ast modDef))
      then Some modDef
      else findModifier name rest
  end.

Fixpoint findFunctionInContracts (origin : FunctionDefinition)
    (contracts : list ContractDefinition) : option nat :=
  match contracts with
  | [] => None
  | contract :: rest =>
      match findFunction origin (definedFunctions contract) with
      | Some funcDef => Some funcDef
      | None => findFunctionInContracts origin rest
      end
  end.

Fixpoint findModifierInContracts (name : string)
    (contracts : list ContractDefinition) : option nat :=
  match contracts with
  | [] => None
  | contract :: rest =>
      match findModifier name (functionModifiers contract) with
      | Some modDef => Some modDef
      | None => findModifierInContracts name rest
      end
  end.

Definition virtualSemantics (c : CallableDeclarationPtr) : bool :=
  match c with
  | FunctionPtr p => fn_virtualSemantics (functionDefinition ast p)
  | ModifierPtr p => mod_virtualSemantics (modifierDefinition ast p)
  end.

Definition findFinalOverride (_callable : CallableDeclarationPtr) : CallableDeclarationPtr :=
  if negb (virtualSemantics _callable) then _callable
  else
    match _callable with
    | FunctionPtr p =>
        match findFunctionInContracts (functionDefinition ast p)
                (linearizedBaseContracts m_currentContract) with
        | Some funcDef => FunctionPtr funcDef
        | None => _callable
        end
    | ModifierPtr p =>
        match findModifierInContracts (mod_name (modifierDefinition ast p))
                (linearizedBaseContracts m_currentContract) with
        | Some modDef => ModifierPtr modDef
        | None => _callable
        end
    end.

(** [ImmutableValidator::analyseVariableDeclaration], lines 180-224. *)
Definition analyseVariableDeclaration (_variableDeclaration : nat) (_expression : Expression)
    (st : State) : State :=
  let decl := variableDeclaration ast _variableDeclaration in
  if negb (isStateVariable decl) || negb (immutable decl) then st
  else if lValueRequested (annotation _expression)
          && lValueOfOrdinaryAssignment (annotation _expression)
  then
    let st :=
      match m_currentConstructor st with
      | None => typeError (location _expression) None msgNotInConstructor st
      | Some ctor =>
          if negb (Z.eqb (fn_contract (functionDefinition ast ctor)) (var_contract decl))
          then typeError (location _expression) None msgOtherContract st
          else if m_inLoop st
          then typeError (location _expression) None msgInLoop st
          else if m_inBranch st
          then typeError (location _expression) None msgInBranch st
          else if negb (m_initializationOfImmutableAllowed st)
          then typeError (location _expression) None msgNotInBody st
          else st
      end in
    if bool_decide (_variableDeclaration ∈ m_initializedStateVariables st)
    then typeError (location _expression) None msgAlreadyInitialized st
    else set_initializedStateVariables
           ({[ _variableDeclaration ]} ∪ m_initializedStateVariables st) st
  else if negb (m_readingOfImmutableAllowed st)
  then typeError (location _expression) None msgRead st
  else st.

(** [ImmutableValidator::checkAllVariablesInitialized], lines 226-236. *)
Fixpoint checkVariables (vars : list nat) (_location : SourceLocation) (st : State) : State :=
  match vars with
  | [] => st
  | varDecl :: rest =>
      let st :=
        if immutable (variableDeclaration ast varDecl)
        then
          if negb (bool_decide (varDecl ∈ m_initializedStateVariables st))
          then typeError _location
                 (Some ("Not initialized: ", var_location (variableDeclaration ast varDecl)))
                 msgNotAllInitialized st
          else st
        else st in
      checkVariables rest _location st
  end.

Definition checkAllVariablesInitialized (_location : SourceLocation) (st : State) : State :=
  checkVariables (stateVariablesIncludingInherited m_currentContract) _location st.

(** The methods below call [accept] on child nodes; [accept] is tied to
    them after the section, one level of depth per call. *)
Variable accept : ASTNode -> State -> Result.

(** [ASTNode::listAccept]. *)
Definition listAccept (nodes : list ASTNode) (st : State) : Result :=
  forEach nodes accept st.

(** [ImmutableValidator::analyseCallable], lines 151-178. *)
Definition analyseCallable (_callableDeclaration : CallableDeclarationPtr) (st : State) : Result :=
  let prevConstructor := m_currentConstructor st in
  let st := set_currentConstructor None st in
  do st <-
    match _callableDeclaration with
    | FunctionPtr p =>
        let funcDef := functionDefinition ast p in
        let st := if isConstructor funcDef then set_currentConstructor (Some p) st else st in
        let previousInitAllowed := m_initializationOfImmutableAllowed st in
        let st := set_initializationOfImmutableAllowed false st in
        do st <- listAccept (modifiers funcDef) st;
        let st := set_initializationOfImmutableAllowed previousInitAllowed st in
        match fn_body funcDef with
        | Some body => accept body st
        | None => Ok st
        end
    | ModifierPtr p => accept (mod_body (modifierDefinition ast p)) st
    end;
  Ok (set_currentConstructor prevConstructor st).

(** [ImmutableValidator::visit(FunctionDefinition)], lines 65-68.  The
    result [false] of [analyseCallable] keeps the default traversal away
    from the children of the definition. *)
Definition visit_FunctionDefinition (_functionDefinition : nat) (st : State) : Result :=
  analyseCallable (FunctionPtr _functionDefinition) st.

(** [ImmutableValidator::visit(ModifierDefinition)], lines 70-73. *)
Definition visit_ModifierDefinition (_modifierDefinition : nat) (st : State) : Result :=
  analyseCallable (ModifierPtr _modifierDefinition) st.

(** [_declaration.accept( *this)] for a callable declaration. *)
Definition acceptCallable (_callable : CallableDeclarationPtr) (st : State) : Result :=
  match _callable with
  | FunctionPtr p => visit_FunctionDefinition p st
  | ModifierPtr p => visit_ModifierDefinition p st
  end.

(** [ImmutableValidator::visitCallable], lines 238-245. *)
Definition visitCallable (_declaration : DeclarationPtr) (st : State) : Result :=
  match _declaration with
  | CallablePtr _callable =>
      if bool_decide (_callable ∈ m_visitedCallables st)
      then Ok st
      else acceptCallable _callable
             (set_visitedCallables ({[ _callable ]} ∪ m_visitedCallables st) st)
  | _ => AssertionFailed
  end.

(** [ImmutableValidator::visit(MemberAccess)], lines 75-96. *)
Definition visit_MemberAccess (e : Expression) (memberName : string) (expression : ASTNode)
    (st : State) : Result :=
  if String.eqb memberName "selector"
     && match annotationType expression with FunctionType _ _ => true | _ => false end
     && match type (annotation e) with FixedBytesType _ => true | _ => false end
  then Ok st
  else
    do st <- accept expression st;
    match referencedDeclaration (annotation e) with
    | Some (VariablePtr varDecl) => Ok (analyseVariableDeclaration varDecl e st)
    | _ =>
        match type (annotation e) with
        | FunctionType kind decl =>
            match kind, decl with
            | (Internal | Declaration), Some declaration => visitCallable declaration st
            | _, _ => Ok st
            end
        | _ => Ok st
        end
    end.

(** [ImmutableValidator::visit(IfStatement)], lines 98-113. *)
Definition visit_IfStatement (condition trueStatement : ASTNode)
    (falseStatement : option ASTNode) (st : State) : Result :=
  let prevInBranch := m_inBranch st in
  do st <- accept condition st;
  let st := set_inBranch true st in
  do st <- accept trueStatement st;
  do st <-
    match falseStatement with
    | Some falseStatement => accept falseStatement st
    | None => Ok st
    end;
  Ok (set_inBranch prevInBranch st).

(** [ImmutableValidator::visit(WhileStatement)], lines 115-126. *)
Definition visit_WhileStatement (condition body : ASTNode) (st : State) : Result :=
  let prevInLoop := m_inLoop st in
  let st := set_inLoop true st in
  do st <- accept condition st;
  do st <- accept body st;
  Ok (set_inLoop prevInLoop st).

(** [ImmutableValidator::visit(Identifier)], lines 128-136. *)
Definition visit_Identifier (e : Expression) (st : State) : Result :=
  do st <-
    match referencedDeclaration (annotation e) with
    | Some (CallablePtr callableDef) =>
        visitCallable (CallablePtr (findFinalOverride callableDef)) st
    | _ => Ok st
    end;
  match referencedDeclaration (annotation e) with
  | Some (VariablePtr varDecl) => Ok (analyseVariableDeclaration varDecl e st)
  | _ => Ok st
  end.

(** [ImmutableValidator::visit(Return)], lines 138-149.  Returning
    [true] leaves the children, that is the returned expression, to the
    default traversal. *)
Definition visit_Return (loc : SourceLocation) (expression : option ASTNode)
    (st : State) : Result :=
  match m_currentConstructor st with
  | None =>
      match expression with
      | Some retExpr => accept retExpr st
      | None => Ok st
      end
  | Some _ =>
      do st <-
        match expression with
        | Some retExpr => accept retExpr st
        | None => Ok st
        end;
      Ok (checkAllVariablesInitialized loc st)
  end.

(** Dispatch of [accept] on the node kind. *)
Definition visit (node : ASTNode) (st : State) : Result :=
  match node with
  | Identifier e => visit_Identifier e st
  | MemberAccess e memberName expression => visit_MemberAccess e memberName expression st
  | IfStatement condition trueStatement falseStatement =>
      visit_IfStatement condition trueStatement falseStatement st
  | WhileStatement condition body => visit_WhileStatement condition body st
  | Return loc expression => visit_Return loc expression st
  | GenericNode _ children => listAccept children st
  end.

End Visitor.

(** [ASTNode::accept] with the validator as visitor; [fuel] bounds the
    nesting depth of the calls. *)
Fixpoint accept (ast : AST) (m_currentContract : CurrentContract) (fuel : nat)
    (node : ASTNode) (st : State) : Result :=
  match fuel with
  | O => OutOfFuel
  | S fuel' => visit ast m_currentContract (accept ast m_currentContract fuel') node st
  end.

(** ** [ImmutableValidator::analyze], lines 26-63

    The four loops of [analyze] are given as four phases; each starts from
    the flags the source has set at that point. *)

Section Analyze.

Variable ast : AST.
Variable m_currentContract : CurrentContract.
Variable fuel : nat.

(** Body of the loop of lines 31-36. *)
Definition acceptInitializer (stateVar : nat) (st : State) : Result :=
  match value (variableDeclaration ast stateVar) with
  | Some initializer =>
      do st <- accept ast m_currentContract fuel initializer st;
      if bool_decide (stateVar ∈ m_initializedStateVariables st)
      then AssertionFailed
      else Ok (set_initializedStateVariables
                 ({[ stateVar ]} ∪ m_initializedStateVariables st) st)
  | None => Ok st
  end.

(** Body of the loop of lines 40-42. *)
Definition visitConstructor (contract : ContractDefinition) (st : State) : Result :=
  match constructor contract with
  | Some ctor =>
      visitCallable ast (accept ast m_currentContract fuel)
        (CallablePtr (FunctionPtr ctor)) st
  | None => Ok st
  end.

(** Body of the loop of lines 46-49. *)
Definition acceptBaseArguments (contract : ContractDefinition) (st : State) : Result :=
  forEach (baseContracts contract)
    (fun inheritSpec st =>
       match arguments inheritSpec with
       | Some args => listAccept (accept ast m_currentContract fuel) args st
       | None => Ok st
       end) st.

(** Body of the loop of lines 53-60. *)
Definition visitFunctionsAndModifiers (contract : ContractDefinition) (st : State) : Result :=
  do st <- forEach (definedFunctions contract)
    (fun funcDef st =>
       visitCallable ast (accept ast m_currentContract fuel)
         (CallablePtr (FunctionPtr funcDef)) st) st;
  forEach (functionModifiers contract)
    (fun modDef st =>
       visitCallable ast (accept ast m_currentContract fuel)
         (CallablePtr (ModifierPtr modDef)) st) st.

(** [linearizedBaseContracts | boost::adaptors::reversed], line 38. *)
Definition linearizeContracts : list ContractDefinition :=
  rev (linearizedBaseContracts m_currentContract).

(** Lines 28-36. *)
Definition inlineInitializers (st : State) : Result :=
  let st := set_readingOfImmutableAllowed false st in
  let st := set_initializationOfImmutableAllowed true st in
  forEach (stateVariablesIncludingInherited m_currentContract) acceptInitializer st.

(** Lines 40-42. *)
Definition constructorBodies (st : State) : Result :=
  forEach linearizeContracts visitConstructor st.

(** Lines 44-49. *)
Definition baseConstructorArguments (st : State) : Result :=
  let st := set_initializationOfImmutableAllowed false st in
  forEach linearizeContracts acceptBaseArguments st.

(** Lines 51-60. *)
Definition functionAndModifierBodies (st : State) : Result :=
  let st := set_readingOfImmutableAllowed true st in
  forEach linearizeContracts visitFunctionsAndModifiers st.

Definition analyze (st : State) : Result :=
  do st <- inlineInitializers st;
  do st <- constructorBodies st;
  do st <- baseConstructorArguments st;
  do st <- functionAndModifierBodies st;
  Ok (checkAllVariablesInitialized ast m_currentContract
        (contract_location m_currentContract) st).

End Analyze.

(** Modelled from the spec: the member initialisers are in the header,
    which is not part of this file; a validator starts with both sets
    empty, outside any branch, loop and constructor. *)
Definition initialState : State :=
  {| m_readingOfImmutableAllowed := true;
     m_initializationOfImmutableAllowed := false;
     m_inBranch := false; m_inLoop := false;
     m_currentConstructor := None;
     m_initializedStateVariables := ∅;
     m_visitedCallables := ∅;
     m_errors := [] |}.

(** ** What the specification says, in its own words *)

(** A report of [message] at [loc], without secondary location. *)
Definition violation (loc : SourceLocation) (message : string) : Error :=
  {| err_location := loc; err_secondary := None; err_message := message |}.

(** The sink after it has received [es]; nothing else changes. *)
Definition addErrors (es : list Error) (st : State) : State :=
  {| m_readingOfImmutableAllowed := m_readingOfImmutableAllowed st;
     m_initializationOfImmutableAllowed := m_initializationOfImmutableAllowed st;
     m_inBranch := m_inBranch st; m_inLoop := m_inLoop st;
     m_currentConstructor := m_currentConstructor st;
     m_initializedStateVariables := m_initializedStateVariables st;
     m_visitedCallables := m_visitedCallables st;
     m_errors := m_errors st ++ es |}.

(** Section 4.3, plain write: the five conditions in their order, each
    with its message; the violation of a write is the first that holds. *)
Definition plainWriteConditions (ast : AST) (decl : VariableDeclaration) (st : State)
    : list (bool * string) :=
  [ (match m_currentConstructor st with None => true | Some _ => false end,
     msgNotInConstructor);
    (match m_currentConstructor st with
     | None => false
     | Some ctor =>
         negb (Z.eqb (fn_contract (functionDefinition ast ctor)) (var_contract decl))
     end,
     msgOtherContract);
    (m_inLoop st, msgInLoop);
    (m_inBranch st, msgInBranch);
    (negb (m_initializationOfImmutableAllowed st), msgNotInBody) ].

Definition plainWriteViolation (ast : AST) (decl : VariableDeclaration) (st : State)
    : option string :=
  option_map snd (List.find fst (plainWriteConditions ast decl st)).

(** Section 4.4: the immutables of the unit that are absent from the set. *)
Definition unresolvedImmutables (ast : AST) (m_currentContract : CurrentContract)
    (initialized : gset nat) : list nat :=
  List.filter
    (fun varDecl =>
       immutable (variableDeclaration ast varDecl)
       && negb (bool_decide (varDecl ∈ initialized)))
    (stateVariablesIncludingInherited m_currentContract).

Definition incomplete (ast : AST) (loc : SourceLocation) (varDecl : nat) : Error :=
  {| err_location := loc;
     err_secondary :=
       Some ("Not initialized: ", var_location (variableDeclaration ast varDecl));
     err_message := msgNotAllInitialized |}.

(** Section 4.2: the declarations of the linearized base list, from the
    most derived unit to the most basic one, and the first that matches. *)
Definition sameNameAndSignature (ast : AST) (origin : FunctionDefinition) (funcDef : nat) : bool :=
  String.eqb (fn_name (functionDefinition ast funcDef)) (fn_name origin)
  && bool_decide (parameterTypes (functionDefinition ast funcDef) = parameterTypes origin)
  && bool_decide (returnTypes (functionDefinition ast funcDef) = returnTypes origin).

Definition sameName (ast : AST) (name : string) (modDef : nat) : bool :=
  String.eqb (mod_name (modifierDefinition ast modDef)) name.

Definition resolveFinalOverride (ast : AST) (m_currentContract : CurrentContract)
    (callable : CallableDeclarationPtr) : CallableDeclarationPtr :=
  let bases := linearizedBaseContracts m_currentContract in
  if virtualSemantics ast callable then
    match callable with
    | FunctionPtr p =>
        match List.find (sameNameAndSignature ast (functionDefinition ast p))
                (concat (map definedFunctions bases)) with
        | Some funcDef => FunctionPtr funcDef
        | None => callable
        end
    | ModifierPtr p =>
        match List.find (sameName ast (mod_name (modifierDefinition ast p)))
                (concat (map functionModifiers bases)) with
        | Some modDef => ModifierPtr modDef
        | None => callable
        end
    end
  else callable.


(** ** What a traversal keeps

    The flags and the constructor marker, which every method restores, and
    the part of the state that only grows. *)
Definition flags (st : State) : bool * bool * bool * bool * option nat :=
  (m_readingOfImmutableAllowed st, m_initializationOfImmutableAllowed st,
   m_inBranch st, m_inLoop st, m_currentConstructor st).

Definition grows (st st' : State) : Prop :=
  m_initializedStateVariables st ⊆ m_initializedStateVariables st'
  /\ m_visitedCallables st ⊆ m_visitedCallables st'
  /\ m_errors st `prefix_of` m_errors st'.

Definition extends (st st' : State) : Prop :=
  flags st' = flags st /\ grows st st'.

(** Section 4.1, phases 3 and 4 as the specification words them: the
    ancestors are taken from the linearized base list most derived first. *)
Definition baseConstructorArguments_mostDerivedFirst (ast : AST)
    (m_currentContract : CurrentContract) (fuel : nat) (st : State) : Result :=
  forEach (linearizedBaseContracts m_currentContract)
    (acceptBaseArguments ast m_currentContract fuel)
    (set_initializationOfImmutableAllowed false st).

Definition functionAndModifierBodies_mostDerivedFirst (ast : AST)
    (m_currentContract : CurrentContract) (fuel : nat) (st : State) : Result :=
  forEach (linearizedBaseContracts m_currentContract)
    (visitFunctionsAndModifiers ast m_currentContract fuel)
    (set_readingOfImmutableAllowed true st).

(** The locations of the reports of a result, oldest first. *)
Definition reportedAt (r : Result) : option (list SourceLocation) :=
  match r with
  | Ok st => Some (map err_location (m_errors st))
  | _ => None
  end.

(** Two initialized sets that hold the same immutables. *)
Definition agreeOnImmutables (ast : AST) (s1 s2 : gset nat) : Prop :=
  forall varDecl,
    immutable (variableDeclaration ast varDecl) = true -> varDecl ∈ s1 <-> varDecl ∈ s2.

(** ** What bounds a traversal

    The nesting depth of a node, and a finite set [scope] of callables that
    holds every callable a traversal can reach; [bound] limits the depth of
    the modifier invocations and bodies of the callables in scope. *)
Fixpoint depth (node : ASTNode) : nat :=
  match node with
  | Identifier _ => 1
  | MemberAccess _ _ operand => S (depth operand)
  | IfStatement condition trueStatement falseStatement =>
      S (max (depth condition)
           (max (depth trueStatement)
              (match falseStatement with Some s => depth s | None => 0 end)))
  | WhileStatement condition body => S (max (depth condition) (depth body))
  | Return _ retExpr => S (match retExpr with Some e => depth e | None => 0 end)
  | GenericNode _ children => S (fold_right (fun child d => max (depth child) d) 0 children)
  end.

Fixpoint inScope (ast : AST) (m_currentContract : CurrentContract)
    (scope : gset CallableDeclarationPtr) (node : ASTNode) : Prop :=
  match node with
  | Identifier e =>
      match referencedDeclaration (annotation e) with
      | Some (CallablePtr c) => findFinalOverride ast m_currentContract c ∈ scope
      | _ => True
      end
  | MemberAccess e _ operand =>
      match type (annotation e) with
      | FunctionType _ (Some (CallablePtr c)) => c ∈ scope
      | _ => True
      end
      /\ inScope ast m_currentContract scope operand
  | IfStatement condition trueStatement falseStatement =>
      inScope ast m_currentContract scope condition
      /\ inScope ast m_currentContract scope trueStatement
      /\ match falseStatement with
         | Some s => inScope ast m_currentContract scope s
         | None => True
         end
  | WhileStatement condition body =>
      inScope ast m_currentContract scope condition
      /\ inScope ast m_currentContract scope body
  | Return _ retExpr =>
      match retExpr with
      | Some e => inScope ast m_currentContract scope e
      | None => True
      end
  | GenericNode _ children =>
      fold_right (fun child rest => inScope ast m_currentContract scope child /\ rest)
        True children
  end.

(** A node that is in scope and at most [bound] deep. *)
Definition bounded (ast : AST) (m_currentContract : CurrentContract)
    (scope : gset CallableDeclarationPtr) (bound : nat) (node : ASTNode) : Prop :=
  inScope ast m_currentContract scope node /\ depth node <= bound.

(** The nodes [analyseCallable] accepts for a callable. *)
Definition callableNodes (ast : AST) (c : CallableDeclarationPtr) : list ASTNode :=
  match c with
  | FunctionPtr p =>
      modifiers (functionDefinition ast p)
      ++ match fn_body (functionDefinition ast p) with Some body => [body] | None => [] end
  | ModifierPtr p => [mod_body (modifierDefinition ast p)]
  end.

Definition closed (ast : AST) (m_currentContract : CurrentContract)
    (scope : gset CallableDeclarationPtr) (bound : nat) : Prop :=
  forall c node,
    c ∈ scope -> In node (callableNodes ast c) ->
    bounded ast m_currentContract scope bound node.

(** The nodes and callables [analyze] starts from. *)
Definition rootsBounded (ast : AST) (m_currentContract : CurrentContract)
    (scope : gset CallableDeclarationPtr) (bound : nat) : Prop :=
  (forall stateVar initializer,
      In stateVar (stateVariablesIncludingInherited m_currentContract) ->
      value (variableDeclaration ast stateVar) = Some initializer ->
      bounded ast m_currentContract scope bound initializer)
  /\ forall contract,
       In contract (linearizedBaseContracts m_currentContract) ->
       (forall ctor, constructor contract = Some ctor -> FunctionPtr ctor ∈ scope)
       /\ (forall funcDef, In funcDef (definedFunctions contract) -> FunctionPtr funcDef ∈ scope)
       /\ (forall modDef, In modDef (functionModifiers contract) -> ModifierPtr modDef ∈ scope)
       /\ (forall inheritSpec args arg,
              In inheritSpec (baseContracts contract) ->
              arguments inheritSpec = Some args -> In arg args ->
              bounded ast m_currentContract scope bound arg).

(** What is left to traverse: [bound + 2] levels for every callable in
    scope that has not been visited. *)
Definition weight (scope : gset CallableDeclarationPtr) (bound : nat) (st : State) : nat :=
  size (scope ∖ m_visitedCallables st) * (bound + 2).

(** Depth [fuel] covers what is left to traverse from [st]. *)
Definition covers (scope : gset CallableDeclarationPtr) (bound fuel : nat) (st : State) : Prop :=
  bound + weight scope bound st <= fuel.

(** A state variable with an inline initializer. *)
Definition hasInitializer (ast : AST) (stateVar : nat) : bool :=
  match value (variableDeclaration ast stateVar) with
  | Some _ => true
  | None => false
  end.

(** A use that is the target of an ordinary assignment. *)
Definition plainWrite (e : Expression) : bool :=
  lValueRequested (annotation e) && lValueOfOrdinaryAssignment (annotation e).
(** ** A sample hierarchy

    [contract A { uint immutable x; uint y = 7; constructor() { x = 1; }
                  function f() virtual {} }]
    [contract B is A { function f() override { x; } }]
    with [B] as the contract under analysis. *)

Module Sample.

Definition readAnnotation (ty : TypePointer) (decl : option DeclarationPtr)
    : ExpressionAnnotation :=
  {| type := ty; referencedDeclaration := decl;
     lValueRequested := false; lValueOfOrdinaryAssignment := false |}.

Definition writeAnnotation (decl : option DeclarationPtr) : ExpressionAnnotation :=
  {| type := OtherType; referencedDeclaration := decl;
     lValueRequested := true; lValueOfOrdinaryAssignment := true |}.

(** A read of [x] at offset [at_]. *)
Definition x_read (at_ : Z) : Expression :=
  {| location := mkLoc at_ (at_ + 1);
     annotation := readAnnotation OtherType (Some (VariablePtr 0)) |}.

(** [x] as the left-hand side of [x = ...] at offset [at_]. *)
Definition x_write (at_ : Z) : Expression :=
  {| location := mkLoc at_ (at_ + 1);
     annotation := writeAnnotation (Some (VariablePtr 0)) |}.

Definition literal : ASTNode := GenericNode OtherType [].

Definition block (statements : list ASTNode) : ASTNode :=
  GenericNode OtherType statements.

(** [x = <literal>;] *)
Definition assign_x (at_ : Z) : ASTNode :=
  GenericNode OtherType [GenericNode OtherType [Identifier (x_write at_); literal]].

Definition var_x : VariableDeclaration :=
  {| var_location := mkLoc 14 30; isStateVariable := true; immutable := true;
     var_contract := 1; value := None |}.

Definition var_y : VariableDeclaration :=
  {| var_location := mkLoc 32 42; isStateVariable := true; immutable := false;
     var_contract := 1; value := Some literal |}.

Definition A_constructor : FunctionDefinition :=
  {| fn_name := ""; isConstructor := true; fn_virtualSemantics := false;
     fn_contract := 1; parameterTypes := []; returnTypes := [];
     modifiers := []; fn_body := Some (block [assign_x 60]) |}.

Definition A_f : FunctionDefinition :=
  {| fn_name := "f"; isConstructor := false; fn_virtualSemantics := true;
     fn_contract := 1; parameterTypes := []; returnTypes := [];
     modifiers := []; fn_body := Some (block []) |}.

Definition B_f : FunctionDefinition :=
  {| fn_name := "f"; isConstructor := false; fn_virtualSemantics := false;
     fn_contract := 2; parameterTypes := []; returnTypes := [];
     modifiers := []; fn_body := Some (block [Identifier (x_read 130)]) |}.

Definition noModifier : ModifierDefinition :=
  {| mod_name := ""; mod_virtualSemantics := false; mod_body := block [] |}.

Definition ast : AST :=
  {| variableDeclaration := fun p => match p with 0 => var_x | _ => var_y end;
     functionDefinition :=
       fun p => match p with 0 => A_constructor | 1 => A_f | _ => B_f end;
     modifierDefinition := fun _ => noModifier |}.

Definition A : ContractDefinition :=
  {| contract_id := 1; constructor := Some 0; baseContracts := [];
     definedFunctions := [0; 1]; functionModifiers := [] |}.

Definition B : ContractDefinition :=
  {| contract_id := 2; constructor := None;
     baseContracts := [ {| arguments := None |} ];
     definedFunctions := [2]; functionModifiers := [] |}.

Definition currentContract : CurrentContract :=
  {| contract_location := mkLoc 100 150;
     stateVariablesIncludingInherited := [0; 1];
     linearizedBaseContracts := [B; A] |}.

(** The members while the constructors are traversed. *)
Definition constructing : State :=
  set_initializationOfImmutableAllowed true
    (set_readingOfImmutableAllowed false initialState).

(** ... and inside the body of [A]'s constructor. *)
Definition inConstructor : State := set_currentConstructor (Some 0) constructing.

(** [A.f], a member access that names [A]'s [f]. *)
Definition A_f_access : ASTNode :=
  MemberAccess
    {| location := mkLoc 64 67;
       annotation :=
         readAnnotation (FunctionType Internal (Some (CallablePtr (FunctionPtr 1))))
           (Some (CallablePtr (FunctionPtr 1))) |}
    "f"
    (Identifier
       {| location := mkLoc 64 65;
          annotation := readAnnotation OtherType (Some (OtherDeclarationPtr 1)) |}).

(** [f], an identifier that names [A]'s [f]. *)
Definition f_reference : Expression :=
  {| location := mkLoc 64 65;
     annotation :=
       readAnnotation (FunctionType Internal (Some (CallablePtr (FunctionPtr 1))))
         (Some (CallablePtr (FunctionPtr 1))) |}.

(** The members after the analysis of [B]. *)
Definition analysed : State :=
  {| m_readingOfImmutableAllowed := true;
     m_initializationOfImmutableAllowed := false;
     m_inBranch := false; m_inLoop := false;
     m_currentConstructor := None;
     m_initializedStateVariables := {[ 0; 1 ]};
     m_visitedCallables := {[ FunctionPtr 0; FunctionPtr 1; FunctionPtr 2 ]};
     m_errors := [] |}.

(** The callables of the hierarchy. *)
Definition scope : gset CallableDeclarationPtr :=
  {[ FunctionPtr 0; FunctionPtr 1; FunctionPtr 2 ]}.

End Sample.

(** ** A chain of three units

    [contract A { uint immutable x; }]
    [contract B is A(x) { function b() { x = 1; } }]
    [contract C is B(x) { function c() { x = 1; } }]
    with [C] as the contract under analysis; only the positions of the
    uses of [x] matter. *)

Module Chain.

Definition writer (at_ : Z) (unit : Z) : FunctionDefinition :=
  {| fn_name := ""; isConstructor := false; fn_virtualSemantics := false;
     fn_contract := unit; parameterTypes := []; returnTypes := [];
     modifiers := []; fn_body := Some (Sample.block [Sample.assign_x at_]) |}.

Definition ast : AST :=
  {| variableDeclaration := fun _ => Sample.var_x;
     functionDefinition := fun p => match p with 2 => writer 220 2 | _ => writer 230 3 end;
     modifierDefinition := fun _ => Sample.noModifier |}.

Definition A : ContractDefinition :=
  {| contract_id := 1; constructor := None; baseContracts := [];
     definedFunctions := []; functionModifiers := [] |}.

Definition B : ContractDefinition :=
  {| contract_id := 2; constructor := None;
     baseContracts := [ {| arguments := Some [Identifier (Sample.x_read 20)] |} ];
     definedFunctions := [2]; functionModifiers := [] |}.

Definition C : ContractDefinition :=
  {| contract_id := 3; constructor := None;
     baseContracts := [ {| arguments := Some [Identifier (Sample.x_read 30)] |} ];
     definedFunctions := [3]; functionModifiers := [] |}.

Definition currentContract : CurrentContract :=
  {| contract_location := mkLoc 300 400;
     stateVariablesIncludingInherited := [0];
     linearizedBaseContracts := [C; B; A] |}.

End Chain.

(** ** A guarded constructor

    [contract G { uint immutable x; modifier m(uint) { _; }
                  constructor() m(1) m(x = 1) { x = 2; } }] *)

Module Guarded.

(** [m(<argument>)] at offset [at_]. *)
Definition invoke_m (at_ : Z) (argument : ASTNode) : ASTNode :=
  GenericNode OtherType
    [ Identifier
        {| location := mkLoc at_ (at_ + 1);
           annotation :=
             Sample.readAnnotation OtherType (Some (CallablePtr (ModifierPtr 0))) |};
      argument ].

(** [x = <literal>] as an expression. *)
Definition x_assigned (at_ : Z) : ASTNode :=
  GenericNode OtherType [Identifier (Sample.x_write at_); Sample.literal].

Definition G_constructor : FunctionDefinition :=
  {| fn_name := ""; isConstructor := true; fn_virtualSemantics := false;
     fn_contract := 1; parameterTypes := []; returnTypes := [];
     modifiers := [invoke_m 30 Sample.literal; invoke_m 35 (x_assigned 37)];
     fn_body := Some (Sample.block [Sample.assign_x 50]) |}.

Definition m : ModifierDefinition :=
  {| mod_name := "m"; mod_virtualSemantics := false; mod_body := Sample.block [] |}.

Definition ast : AST :=
  {| variableDeclaration := fun _ => Sample.var_x;
     functionDefinition := fun _ => G_constructor;
     modifierDefinition := fun _ => m |}.

Definition G : ContractDefinition :=
  {| contract_id := 1; constructor := Some 0; baseContracts := [];
     definedFunctions := [0]; functionModifiers := [0] |}.

Definition currentContract : CurrentContract :=
  {| contract_location := mkLoc 0 60;
     stateVariablesIncludingInherited := [0];
     linearizedBaseContracts := [G] |}.

End Guarded.

(** ** Overrides along a chain

    [contract A { modifier only virtual { _; } function f() virtual {} }]
    [contract B is A { function f() virtual override {} }]
    [contract C is B { modifier only override { _; } function g() {}
                       function f() override {} }]
    with [C] as the contract under analysis. *)

Module Overrides.

Definition declared (name : string) (isVirtual : bool) (unit : Z) : FunctionDefinition :=
  {| fn_name := name; isConstructor := false; fn_virtualSemantics := isVirtual;
     fn_contract := unit; parameterTypes := []; returnTypes := [];
     modifiers := []; fn_body := Some (Sample.block []) |}.

Definition only (isVirtual : bool) : ModifierDefinition :=
  {| mod_name := "only"; mod_virtualSemantics := isVirtual; mod_body := Sample.block [] |}.

Definition ast : AST :=
  {| variableDeclaration := fun _ => Sample.var_x;
     functionDefinition :=
       fun p => match p with
                | 1 => declared "f" true 1
                | 2 => declared "f" true 2
                | 3 => declared "f" false 3
                | _ => declared "g" false 3
                end;
     modifierDefinition := fun p => match p with 1 => only true | _ => only false end |}.

Definition A : ContractDefinition :=
  {| contract_id := 1; constructor := None; baseContracts := [];
     definedFunctions := [1]; functionModifiers := [1] |}.

Definition B : ContractDefinition :=
  {| contract_id := 2; constructor := None; baseContracts := [ {| arguments := None |} ];
     definedFunctions := [2]; functionModifiers := [] |}.

Definition C : ContractDefinition :=
  {| contract_id := 3; constructor := None; baseContracts := [ {| arguments := None |} ];
     definedFunctions := [4; 3]; functionModifiers := [2] |}.

Definition currentContract : CurrentContract :=
  {| contract_location := mkLoc 0 200;
     stateVariablesIncludingInherited := [0];
     linearizedBaseContracts := [C; B; A] |}.

End Overrides.

(** ** A unit without immutables

    [contract P { uint y = 7; function set() { y = 1; } }] *)

Module Plain.

(** [y = <literal>;] *)
Definition assign_y (at_ : Z) : ASTNode :=
  GenericNode OtherType
    [GenericNode OtherType
       [Identifier {| location := mkLoc at_ (at_ + 1);
                      annotation := Sample.writeAnnotation (Some (VariablePtr 0)) |};
        Sample.literal]].

Definition set : FunctionDefinition :=
  {| fn_name := "set"; isConstructor := false; fn_virtualSemantics := false;
     fn_contract := 1; parameterTypes := []; returnTypes := [];
     modifiers := []; fn_body := Some (Sample.block [assign_y 40]) |}.

Definition ast : AST :=
  {| variableDeclaration := fun _ => Sample.var_y;
     functionDefinition := fun _ => set;
     modifierDefinition := fun _ => Sample.noModifier |}.

Definition P : ContractDefinition :=
  {| contract_id := 1; constructor := None; baseContracts := [];
     definedFunctions := [0]; functionModifiers := [] |}.

Definition currentContract : CurrentContract :=
  {| contract_location := mkLoc 0 60;
     stateVariablesIncludingInherited := [0];
     linearizedBaseContracts := [P] |}.

Definition analysed : State :=
  {| m_readingOfImmutableAllowed := true;
     m_initializationOfImmutableAllowed := false;
     m_inBranch := false; m_inLoop := false;
     m_currentConstructor := None;
     m_initializedStateVariables := {[ 0 ]};
     m_visitedCallables := {[ FunctionPtr 0 ]};
     m_errors := [] |}.

End Plain.

(** ** An immutable with an inline initializer

    [contract I { uint immutable x = 1; constructor() { x = 2; } }] *)

Module Inline.

Definition var_x : VariableDeclaration :=
  {| var_location := mkLoc 14 34; isStateVariable := true; immutable := true;
     var_contract := 1; value := Some Sample.literal |}.

Definition ast : AST :=
  {| variableDeclaration := fun _ => var_x;
     functionDefinition := fun _ => Sample.A_constructor;
     modifierDefinition := fun _ => Sample.noModifier |}.

Definition I : ContractDefinition :=
  {| contract_id := 1; constructor := Some 0; baseContracts := [];
     definedFunctions := [0]; functionModifiers := [] |}.

Definition currentContract : CurrentContract :=
  {| contract_location := mkLoc 0 80;
     stateVariablesIncludingInherited := [0];
     linearizedBaseContracts := [I] |}.

End Inline.

(** ** Mutual recursion

    [contract R { function even() { odd(); } function odd() { even(); } }] *)

Module Recursion.

Definition call (callee : nat) (at_ : Z) : ASTNode :=
  GenericNode OtherType
    [ Identifier
        {| location := mkLoc at_ (at_ + 1);
           annotation :=
             Sample.readAnnotation
               (FunctionType Internal (Some (CallablePtr (FunctionPtr callee))))
               (Some (CallablePtr (FunctionPtr callee))) |} ].

Definition calling (name : string) (callee : nat) (at_ : Z) : FunctionDefinition :=
  {| fn_name := name; isConstructor := false; fn_virtualSemantics := false;
     fn_contract := 1; parameterTypes := []; returnTypes := [];
     modifiers := []; fn_body := Some (Sample.block [call callee at_]) |}.

Definition ast : AST :=
  {| variableDeclaration := fun _ => Sample.var_y;
     functionDefinition :=
       fun p => match p with 0 => calling "even" 1 20 | _ => calling "odd" 0 40 end;
     modifierDefinition := fun _ => Sample.noModifier |}.

Definition R : ContractDefinition :=
  {| contract_id := 1; constructor := None; baseContracts := [];
     definedFunctions := [0; 1]; functionModifiers := [] |}.

Definition currentContract : CurrentContract :=
  {| contract_location := mkLoc 0 60;
     stateVariablesIncludingInherited := [];
     linearizedBaseContracts := [R] |}.

Definition scope : gset CallableDeclarationPtr := {[ FunctionPtr 0; FunctionPtr 1 ]}.

End Recursion.
(** ** Basic facts *)

Lemma bind_Ok (r : Result) (k : State -> Result) (st' : State) :
  bind r k = Ok st' <-> exists st1, r = Ok st1 /\ k st1 = Ok st'.
Proof.
  split.
  - destruct r as [st1| |]; simpl; intros H; try discriminate. eauto.
  - intros (st1 & -> & H). exact H.
Qed.

Lemma acceptCallable_analyseCallable ast acc c st :
  acceptCallable ast acc c st = analyseCallable ast acc c st.
Proof. destruct c; reflexivity. Qed.

Lemma forEach_app {A : Type} (l1 l2 : list A) (body : A -> State -> Result) (st : State) :
  forEach (l1 ++ l2) body st = do st' <- forEach l1 body st; forEach l2 body st'.
Proof.
  revert st. induction l1 as [|x l1 IH]; intros st; simpl; [reflexivity|].
  destruct (body x st); simpl; auto.
Qed.

Lemma addErrors_nil (st : State) : addErrors [] st = st.
Proof. destruct st. unfold addErrors. simpl. rewrite app_nil_r. reflexivity. Qed.

Lemma addErrors_addErrors (es1 es2 : list Error) (st : State) :
  addErrors es2 (addErrors es1 st) = addErrors (es1 ++ es2) st.
Proof. unfold addErrors. simpl. rewrite app_assoc. reflexivity. Qed.

Lemma typeError_addErrors loc secondary message st :
  typeError loc secondary message st =
  addErrors [ {| err_location := loc; err_secondary := secondary; err_message := message |} ] st.
Proof. reflexivity. Qed.

Lemma set_initializedStateVariables_same (st : State) :
  set_initializedStateVariables (m_initializedStateVariables st) st = st.
Proof. destruct st. reflexivity. Qed.

Lemma checkVariables_filter ast vars loc st :
  checkVariables ast vars loc st =
  addErrors
    (map (incomplete ast loc)
       (List.filter
          (fun varDecl =>
             immutable (variableDeclaration ast varDecl)
             && negb (bool_decide (varDecl ∈ m_initializedStateVariables st)))
          vars))
    st.
Proof.
  revert st. induction vars as [|v vars IH]; intros st; simpl.
  - symmetry. apply addErrors_nil.
  - destruct (immutable (variableDeclaration ast v)); simpl; [|apply IH].
    destruct (bool_decide (v ∈ m_initializedStateVariables st)); simpl; [apply IH|].
    rewrite IH. rewrite typeError_addErrors, addErrors_addErrors. reflexivity.
Qed.

Lemma findFunction_find ast origin funcs :
  findFunction ast origin funcs = List.find (sameNameAndSignature ast origin) funcs.
Proof.
  induction funcs as [|f funcs IH]; simpl; [reflexivity|].
  unfold sameNameAndSignature at 1.
  destruct (String.eqb _ _); simpl; [|exact IH].
  destruct (bool_decide (returnTypes _ = _)),
           (bool_decide (parameterTypes _ = _)); simpl; auto.
Qed.

Lemma findModifier_find ast name mods :
  findModifier ast name mods = List.find (sameName ast name) mods.
Proof.
  induction mods as [|m mods IH]; simpl; [reflexivity|].
  unfold sameName at 1. rewrite String.eqb_sym.
  destruct (String.eqb _ _); auto.
Qed.

Lemma find_app_concat {A : Type} (f : A -> bool) (l1 l2 : list A) :
  List.find f (l1 ++ l2) =
  match List.find f l1 with Some x => Some x | None => List.find f l2 end.
Proof.
  induction l1 as [|x l1 IH]; simpl; [reflexivity|].
  destruct (f x); auto.
Qed.

Lemma findFunctionInContracts_find ast origin contracts :
  findFunctionInContracts ast origin contracts =
  List.find (sameNameAndSignature ast origin) (concat (map definedFunctions contracts)).
Proof.
  induction contracts as [|c contracts IH]; simpl; [reflexivity|].
  rewrite find_app_concat, findFunction_find, IH. reflexivity.
Qed.

Lemma findModifierInContracts_find ast name contracts :
  findModifierInContracts ast name contracts =
  List.find (sameName ast name) (concat (map functionModifiers contracts)).
Proof.
  induction contracts as [|c contracts IH]; simpl; [reflexivity|].
  rewrite find_app_concat, findModifier_find, IH. reflexivity.
Qed.

Lemma insert_present `{Countable K} (x : K) (s : gset K) :
  x ∈ s -> {[ x ]} ∪ s = s.
Proof. intros Hin. apply subseteq_union_1_L, singleton_subseteq_l, Hin. Qed.

(** ** Every visit restores the flags and only adds to the sets *)

Lemma grows_refl st : grows st st.
Proof. unfold grows. auto. Qed.

Lemma grows_trans st1 st2 st3 : grows st1 st2 -> grows st2 st3 -> grows st1 st3.
Proof.
  unfold grows. intros (Hi & Hv & He) (Hi' & Hv' & He').
  repeat split; etrans; eauto.
Qed.

Lemma extends_refl st : extends st st.
Proof. split; [reflexivity | apply grows_refl]. Qed.

Lemma extends_trans st1 st2 st3 : extends st1 st2 -> extends st2 st3 -> extends st1 st3.
Proof.
  intros [Hf Hg] [Hf' Hg']. split; [congruence | eapply grows_trans; eauto].
Qed.

Lemma grows_addErrors es st : grows st (addErrors es st).
Proof. unfold grows. simpl. repeat split; auto. apply prefix_app_r. reflexivity. Qed.

Lemma extends_addErrors es st : extends st (addErrors es st).
Proof. split; [reflexivity | apply grows_addErrors]. Qed.

Lemma extends_typeError loc secondary message st :
  extends st (typeError loc secondary message st).
Proof. rewrite typeError_addErrors. apply extends_addErrors. Qed.

Lemma extends_insert_initialized v st :
  extends st (set_initializedStateVariables ({[ v ]} ∪ m_initializedStateVariables st) st).
Proof.
  split; [reflexivity|]. unfold grows. simpl. repeat split; auto.
  apply union_subseteq_r.
Qed.

Lemma analyseVariableDeclaration_extends ast v e st :
  extends st (analyseVariableDeclaration ast v e st).
Proof.
  unfold analyseVariableDeclaration. cbv zeta.
  repeat match goal with
         | |- context [match m_currentConstructor st with _ => _ end] =>
             destruct (m_currentConstructor st)
         | |- context [if ?c then _ else _] => destruct c
         end;
    (split; [reflexivity|]); unfold grows; simpl; repeat split;
    first [ reflexivity
          | apply union_subseteq_r
          | repeat apply prefix_app_r; reflexivity ].
Qed.

Lemma checkAllVariablesInitialized_extends ast cc loc st :
  extends st (checkAllVariablesInitialized ast cc loc st).
Proof.
  unfold checkAllVariablesInitialized. rewrite checkVariables_filter.
  apply extends_addErrors.
Qed.

Lemma forEach_extends {A : Type} (body : A -> State -> Result) (l : list A) :
  (forall x st st', x ∈ l -> body x st = Ok st' -> extends st st') ->
  forall st st', forEach l body st = Ok st' -> extends st st'.
Proof.
  induction l as [|x l IH]; intros Hbody st st'; simpl.
  - intros [= <-]. apply extends_refl.
  - rewrite bind_Ok. intros (st1 & H1 & H2).
    eapply extends_trans.
    + eapply Hbody; [left | exact H1].
    + eapply IH; [|exact H2]. intros y s s' Hy. apply Hbody. right. exact Hy.
Qed.

Section VisitExtends.

Variable ast : AST.
Variable m_currentContract : CurrentContract.
Variable acc : ASTNode -> State -> Result.
Hypothesis acc_extends : forall node st st', acc node st = Ok st' -> extends st st'.

Lemma listAccept_extends nodes st st' :
  listAccept acc nodes st = Ok st' -> extends st st'.
Proof.
  apply forEach_extends. intros x s s' _. apply acc_extends.
Qed.

Ltac step :=
  match goal with
  | H : bind _ _ = Ok _ |- _ =>
      apply bind_Ok in H; destruct H as (? & ? & ?)
  | H : Ok _ = Ok _ |- _ => injection H as <-
  | H : acc _ _ = Ok _ |- _ => apply acc_extends in H
  | H : listAccept acc _ _ = Ok _ |- _ => apply listAccept_extends in H
  | H : match ?o with Some _ => _ | None => _ end = Ok _ |- _ => destruct o
  end.

Ltac finish :=
  unfold extends, grows, flags in *; simpl in *;
  repeat match goal with H : _ /\ _ |- _ => destruct H end;
  repeat split; try congruence; repeat (etrans; [eassumption|]); try reflexivity.

Lemma analyseCallable_extends c st st' :
  analyseCallable ast acc c st = Ok st' -> extends st st'.
Proof.
  unfold analyseCallable. intros H. destruct c as [p|p].
  - destruct (isConstructor (functionDefinition ast p)); repeat step; finish.
  - repeat step; finish.
Qed.

Lemma visitCallable_extends d st st' :
  visitCallable ast acc d st = Ok st' -> extends st st'.
Proof.
  unfold visitCallable. destruct d as [v|c|o]; try discriminate.
  case_bool_decide.
  - intros [= <-]. apply extends_refl.
  - rewrite acceptCallable_analyseCallable.
  intros Hc. apply analyseCallable_extends in Hc.
    eapply extends_trans; [|exact Hc].
    split; [reflexivity|]. unfold grows; simpl. repeat split; auto.
    apply union_subseteq_r.
Qed.

Lemma visit_Identifier_extends e st st' :
  visit_Identifier ast m_currentContract acc e st = Ok st' -> extends st st'.
Proof.
  unfold visit_Identifier. rewrite bind_Ok. intros (st1 & H1 & H2).
  destruct (referencedDeclaration (annotation e)) as [[v|cd|o]|];
    injection H2 as <-; try (injection H1 as <-);
    eauto using extends_refl, analyseVariableDeclaration_extends, visitCallable_extends.
Qed.

Lemma visit_MemberAccess_extends e name operand st st' :
  visit_MemberAccess ast acc e name operand st = Ok st' -> extends st st'.
Proof.
  unfold visit_MemberAccess.
  destruct (_ && _ && _); [intros [= <-]; apply extends_refl|].
  rewrite bind_Ok. intros (st1 & H1 & H2). apply acc_extends in H1.
  eapply extends_trans; [exact H1|].
  destruct (referencedDeclaration (annotation e)) as [[v|cd|o]|];
    try (injection H2 as <-; apply analyseVariableDeclaration_extends);
    (destruct (type (annotation e)) as [kind [decl|]| |];
     try (injection H2 as <-; apply extends_refl);
     destruct kind;
     try (injection H2 as <-; apply extends_refl);
     eapply visitCallable_extends; eauto).
Qed.

Lemma visit_Return_extends loc r st st' :
  visit_Return ast m_currentContract acc loc r st = Ok st' -> extends st st'.
Proof.
  unfold visit_Return.
  destruct (m_currentConstructor st) eqn:Hctor.
  - rewrite bind_Ok. intros (st1 & H1 & [= <-]).
    eapply extends_trans; [|apply checkAllVariablesInitialized_extends].
    destruct r; [eauto | injection H1 as <-; apply extends_refl].
  - destruct r; [eauto | intros [= <-]; apply extends_refl].
Qed.

Lemma visit_extends node st st' :
  visit ast m_currentContract acc node st = Ok st' -> extends st st'.
Proof.
  destruct node as [e|e name operand|c t f|c b|loc r|ty children]; simpl.
  - apply visit_Identifier_extends.
  - apply visit_MemberAccess_extends.
  - unfold visit_IfStatement. intros H. repeat step; finish.
  - unfold visit_WhileStatement. intros H. repeat step; finish.
  - apply visit_Return_extends.
  - apply listAccept_extends.
Qed.

End VisitExtends.

Lemma accept_extends ast m_currentContract fuel node st st' :
  accept ast m_currentContract fuel node st = Ok st' -> extends st st'.
Proof.
  revert node st st'. induction fuel as [|fuel IH]; intros node st st'; simpl.
  - discriminate.
  - apply visit_extends. exact IH.
Qed.

Lemma bind_ret (r : Result) : bind r Ok = r.
Proof. destruct r; reflexivity. Qed.

Lemma set_inBranch_same (st : State) (b : bool) :
  m_inBranch st = b -> set_inBranch b st = st.
Proof. intros <-. destruct st. reflexivity. Qed.

Lemma accept_inBranch ast m_currentContract fuel node st st' :
  accept ast m_currentContract fuel node st = Ok st' -> m_inBranch st' = m_inBranch st.
Proof.
  intros H. apply accept_extends in H. destruct H as [Hflags _].
  unfold flags in Hflags. congruence.
Qed.

(** ** Phase 1 *)

Lemma acceptInitializer_records ast m_currentContract fuel stateVar st st' :
  acceptInitializer ast m_currentContract fuel stateVar st = Ok st' ->
  grows st st'
  /\ (value (variableDeclaration ast stateVar) <> None ->
      stateVar ∈ m_initializedStateVariables st').
Proof.
  unfold acceptInitializer.
  destruct (value (variableDeclaration ast stateVar)) as [initializer|].
  - rewrite bind_Ok. intros (st1 & Hvisit & Hinsert).
    apply accept_extends in Hvisit. destruct Hvisit as [_ Hgrows].
    case_bool_decide; [discriminate|]. injection Hinsert as <-.
    split.
    + eapply grows_trans; [exact Hgrows|]. apply extends_insert_initialized.
    + intros _. simpl. apply elem_of_union_l, elem_of_singleton. reflexivity.
  - intros [= <-]. split; [apply grows_refl | congruence].
Qed.

Lemma forEach_acceptInitializer_records ast m_currentContract fuel vars st st' :
  forEach vars (acceptInitializer ast m_currentContract fuel) st = Ok st' ->
  grows st st'
  /\ forall stateVar,
       stateVar ∈ vars ->
       value (variableDeclaration ast stateVar) <> None ->
       stateVar ∈ m_initializedStateVariables st'.
Proof.
  revert st. induction vars as [|v vars IH]; intros st; simpl.
  - intros [= <-]. split; [apply grows_refl|]. intros x Hx. inversion Hx.
  - rewrite bind_Ok. intros (st1 & Hhead & Htail).
    apply acceptInitializer_records in Hhead. destruct Hhead as [Hg1 Hin1].
    apply IH in Htail. destruct Htail as [Hg2 Hin2].
    split; [eapply grows_trans; eauto|].
    intros x Hx Hvalue. apply elem_of_cons in Hx. destruct Hx as [-> | Hx].
    + destruct Hg2 as [Hsub _]. apply Hsub, Hin1, Hvalue.
    + apply Hin2; assumption.
Qed.

Lemma unresolvedImmutables_agree ast m_currentContract s1 s2 :
  agreeOnImmutables ast s1 s2 ->
  unresolvedImmutables ast m_currentContract s1 = unresolvedImmutables ast m_currentContract s2.
Proof.
  intros Hagree. unfold unresolvedImmutables.
  induction (stateVariablesIncludingInherited m_currentContract) as [|v vars IH];
    simpl; [reflexivity|].
  rewrite IH.
  destruct (immutable (variableDeclaration ast v)) eqn:Himm; simpl; [|reflexivity].
  rewrite (bool_decide_ext _ _ (Hagree v Himm)). reflexivity.
Qed.

(** ** More depth never changes a result *)

Lemma bind_stable (r r' : Result) (k k' : State -> Result) :
  (r <> OutOfFuel -> r' = r) ->
  (forall st, k st <> OutOfFuel -> k' st = k st) ->
  bind r k <> OutOfFuel -> bind r' k' = bind r k.
Proof.
  intros Hr Hk. destruct r as [st| |]; simpl; intros Hrun.
  - rewrite Hr by discriminate. simpl. apply Hk, Hrun.
  - rewrite Hr by discriminate. reflexivity.
  - contradiction.
Qed.

Lemma forEach_stable {A : Type} (body body' : A -> State -> Result) (l : list A) :
  (forall x st, body x st <> OutOfFuel -> body' x st = body x st) ->
  forall st, forEach l body st <> OutOfFuel -> forEach l body' st = forEach l body st.
Proof.
  intros Hbody. induction l as [|x l IH]; intros st; simpl; [reflexivity|].
  apply bind_stable; auto.
Qed.

Section VisitStable.

Variable ast : AST.
Variable m_currentContract : CurrentContract.
Variables acc acc' : ASTNode -> State -> Result.
Hypothesis acc_stable : forall node st, acc node st <> OutOfFuel -> acc' node st = acc node st.

Lemma option_accept_stable (o : option ASTNode) (st : State) :
  match o with Some node => acc node st | None => Ok st end <> OutOfFuel ->
  match o with Some node => acc' node st | None => Ok st end
  = match o with Some node => acc node st | None => Ok st end.
Proof. destruct o; auto. Qed.

Lemma listAccept_stable nodes st :
  listAccept acc nodes st <> OutOfFuel -> listAccept acc' nodes st = listAccept acc nodes st.
Proof. apply forEach_stable, acc_stable. Qed.

Lemma analyseCallable_stable c st :
  analyseCallable ast acc c st <> OutOfFuel ->
  analyseCallable ast acc' c st = analyseCallable ast acc c st.
Proof.
  unfold analyseCallable. apply bind_stable; [|reflexivity].
  destruct c as [p|p]; [|apply acc_stable].
  apply bind_stable; [apply listAccept_stable|].
  intros st1. apply option_accept_stable.
Qed.

Lemma visitCallable_stable d st :
  visitCallable ast acc d st <> OutOfFuel ->
  visitCallable ast acc' d st = visitCallable ast acc d st.
Proof.
  unfold visitCallable. destruct d as [v|c|o]; try reflexivity.
  case_bool_decide; [reflexivity|].
rewrite !acceptCallable_analyseCallable. apply analyseCallable_stable.
Qed.

Lemma visit_stable node st :
  visit ast m_currentContract acc node st <> OutOfFuel ->
  visit ast m_currentContract acc' node st = visit ast m_currentContract acc node st.
Proof.
  destruct node as [e|e name operand|c t f|c b|loc r|ty children]; simpl.
  - unfold visit_Identifier. apply bind_stable; [|reflexivity].
    destruct (referencedDeclaration (annotation e)) as [[v|cd|o]|]; try reflexivity.
    apply visitCallable_stable.
  - unfold visit_MemberAccess.
    destruct (_ && _ && _); [reflexivity|].
    apply bind_stable; [apply acc_stable|]. intros st1.
    destruct (referencedDeclaration (annotation e)) as [[v|cd|o]|]; try reflexivity;
      (destruct (type (annotation e)) as [kind [decl|]| |]; try reflexivity;
       destruct kind; try reflexivity; apply visitCallable_stable).
  - unfold visit_IfStatement.
    apply bind_stable; [apply acc_stable|]. intros st1.
    apply bind_stable; [apply acc_stable|]. intros st2.
    apply bind_stable; [apply option_accept_stable | reflexivity].
  - unfold visit_WhileStatement.
    apply bind_stable; [apply acc_stable|]. intros st1.
    apply bind_stable; [apply acc_stable | reflexivity].
  - unfold visit_Return.
    destruct (m_currentConstructor st); [|apply option_accept_stable].
    apply bind_stable; [apply option_accept_stable | reflexivity].
  - apply listAccept_stable.
Qed.

End VisitStable.

Lemma accept_S ast m_currentContract fuel node st :
  accept ast m_currentContract fuel node st <> OutOfFuel ->
  accept ast m_currentContract (S fuel) node st = accept ast m_currentContract fuel node st.
Proof.
  revert node st. induction fuel as [|fuel IH]; intros node st.
  - simpl. contradiction.
  - intros Hrun. change (visit ast m_currentContract (accept ast m_currentContract (S fuel)) node st
                         = visit ast m_currentContract (accept ast m_currentContract fuel) node st).
    apply visit_stable; [exact IH | exact Hrun].
Qed.

Lemma accept_more_fuel ast m_currentContract fuel extra node st :
  accept ast m_currentContract fuel node st <> OutOfFuel ->
  accept ast m_currentContract (extra + fuel) node st = accept ast m_currentContract fuel node st.
Proof.
  intros Hrun. induction extra as [|extra IH]; [reflexivity|].
  change (S extra + fuel) with (S (extra + fuel)).
  rewrite accept_S; rewrite IH; auto.
Qed.

(** ** The traversal is bounded *)

Lemma weight_grows scope bound st st' :
  grows st st' -> weight scope bound st' <= weight scope bound st.
Proof.
  intros (_ & Hvisited & _). unfold weight.
  apply Nat.mul_le_mono_r, subseteq_size, difference_mono_l, Hvisited.
Qed.

Lemma weight_visit scope bound c st :
  c ∈ scope -> c ∉ m_visitedCallables st ->
  weight scope bound (set_visitedCallables ({[ c ]} ∪ m_visitedCallables st) st)
  + (bound + 2) <= weight scope bound st.
Proof.
  intros Hscope Hnew. unfold weight. simpl.
  assert (Hless : size (scope ∖ ({[ c ]} ∪ m_visitedCallables st))
                  < size (scope ∖ m_visitedCallables st)).
  { apply subset_size. split.
    - apply difference_mono_l, union_subseteq_r.
    - intros Hsub. specialize (Hsub c).
      rewrite !elem_of_difference, elem_of_union, elem_of_singleton in Hsub.
      destruct Hsub as [_ Hnot]; [split; assumption|]. apply Hnot. left. reflexivity. }
  nia.
Qed.

Lemma depth_pos node : 1 <= depth node.
Proof. destruct node; simpl; lia. Qed.

Lemma depth_children child children :
  In child children ->
  depth child <= fold_right (fun c d => max (depth c) d) 0 children.
Proof.
  induction children as [|x children IH]; simpl; [contradiction|].
  intros [-> | Hin]; [lia|]. specialize (IH Hin). lia.
Qed.

Lemma inScope_children ast m_currentContract scope child children :
  fold_right (fun c rest => inScope ast m_currentContract scope c /\ rest) True children ->
  In child children -> inScope ast m_currentContract scope child.
Proof.
  induction children as [|x children IH]; simpl; [contradiction|].
  intros [Hx Hrest] [-> | Hin]; auto.
Qed.

Lemma bind_terminates (r : Result) (k : State -> Result) :
  r <> OutOfFuel -> (forall st, r = Ok st -> k st <> OutOfFuel) -> bind r k <> OutOfFuel.
Proof. destruct r; simpl; intros Hr Hk; [apply Hk; reflexivity | discriminate | contradiction]. Qed.

Lemma forEach_terminates {A : Type} (body : A -> State -> Result) (P : State -> Prop)
    (l : list A) :
  (forall x st, In x l -> P st ->
     body x st <> OutOfFuel /\ forall st', body x st = Ok st' -> P st') ->
  forall st, P st ->
    forEach l body st <> OutOfFuel /\ forall st', forEach l body st = Ok st' -> P st'.
Proof.
  induction l as [|x l IH]; intros Hbody st HP; simpl.
  - split; [discriminate | intros st' [= <-]; exact HP].
  - destruct (Hbody x st (or_introl eq_refl) HP) as [Hrun Hkeep].
    assert (Htail : forall y s, In y l -> P s ->
              body y s <> OutOfFuel /\ forall s', body y s = Ok s' -> P s')
      by (intros y s Hy; apply Hbody; right; exact Hy).
    split.
    + apply bind_terminates; [exact Hrun|].
      intros st1 H1. apply (IH Htail st1 (Hkeep st1 H1)).
    + intros st'. rewrite bind_Ok. intros (st1 & H1 & H2).
      apply (IH Htail st1 (Hkeep st1 H1)). exact H2.
Qed.

Section VisitTerminates.

Variable ast : AST.
Variable m_currentContract : CurrentContract.
Variable scope : gset CallableDeclarationPtr.
Variable bound : nat.
Variable fuel : nat.
Variable acc : ASTNode -> State -> Result.

Hypothesis scope_closed : closed ast m_currentContract scope bound.
Hypothesis acc_extends : forall node st st', acc node st = Ok st' -> extends st st'.
Hypothesis acc_terminates :
  forall node st,
    inScope ast m_currentContract scope node ->
    depth node + weight scope bound st <= fuel ->
    acc node st <> OutOfFuel.

Lemma listAccept_terminates nodes d st :
  (forall node, In node nodes -> bounded ast m_currentContract scope d node) ->
  d + weight scope bound st <= fuel ->
  listAccept acc nodes st <> OutOfFuel.
Proof.
  intros Hnodes Hfuel.
  apply (forEach_terminates acc (fun s => d + weight scope bound s <= fuel) nodes);
    [|exact Hfuel].
  intros node s Hin Hs. destruct (Hnodes node Hin) as [Hscope Hdepth]. split.
  - apply acc_terminates; [exact Hscope | lia].
  - intros s' Hrun. apply acc_extends in Hrun. destruct Hrun as [_ Hgrows].
    pose proof (weight_grows scope bound s s' Hgrows). lia.
Qed.

Lemma analyseCallable_terminates c st :
  c ∈ scope -> bound + weight scope bound st <= fuel ->
  analyseCallable ast acc c st <> OutOfFuel.
Proof.
  intros Hc Hfuel. unfold analyseCallable.
  apply bind_terminates; [|discriminate].
  destruct c as [p|p].
  - apply bind_terminates.
    + apply listAccept_terminates with (d := bound).
      * intros node Hin. apply (scope_closed (FunctionPtr p)); [exact Hc|].
        simpl. apply in_or_app. left. exact Hin.
      * destruct (isConstructor (functionDefinition ast p)); exact Hfuel.
    + intros st1 Hmods. apply (listAccept_extends acc acc_extends) in Hmods.
      destruct Hmods as [_ Hgrows].
      apply weight_grows with (scope := scope) (bound := bound) in Hgrows.
      destruct (fn_body (functionDefinition ast p)) as [body|] eqn:Hbody; [|discriminate].
      destruct (scope_closed (FunctionPtr p) body Hc) as [Hscope Hdepth].
      { simpl. rewrite Hbody. apply in_or_app. right. left. reflexivity. }
      apply acc_terminates; [exact Hscope|].
      assert (weight scope bound
                (set_initializationOfImmutableAllowed
                   (m_initializationOfImmutableAllowed
                      (if isConstructor (functionDefinition ast p)
                       then set_currentConstructor (Some p) (set_currentConstructor None st)
                       else set_currentConstructor None st)) st1)
              = weight scope bound st1) as -> by reflexivity.
      destruct (isConstructor (functionDefinition ast p)); simpl in Hgrows;
        unfold weight in *; simpl in *; lia.
  - destruct (scope_closed (ModifierPtr p) (mod_body (modifierDefinition ast p)) Hc)
      as [Hscope Hdepth]; [left; reflexivity|].
    apply acc_terminates; [exact Hscope|]. unfold weight in *. simpl. lia.
Qed.

Lemma visitCallable_terminates d st :
  match d with CallablePtr c => c ∈ scope | _ => True end ->
  weight scope bound st <= fuel ->
  visitCallable ast acc d st <> OutOfFuel.
Proof.
  intros Hd Hfuel. unfold visitCallable. destruct d as [v|c|o]; try discriminate.
  case_bool_decide as Hvisited; [discriminate|].
  rewrite acceptCallable_analyseCallable.
  apply analyseCallable_terminates; [exact Hd|].
  pose proof (weight_visit scope bound c st Hd Hvisited). lia.
Qed.

Lemma option_accept_terminates (o : option ASTNode) (st : State) :
  match o with Some node => inScope ast m_currentContract scope node | None => True end ->
  match o with Some node => depth node | None => 0 end + weight scope bound st <= fuel ->
  match o with Some node => acc node st | None => Ok st end <> OutOfFuel.
Proof. destruct o; [apply acc_terminates | discriminate]. Qed.

Lemma visit_terminates node st :
  inScope ast m_currentContract scope node ->
  depth node + weight scope bound st <= S fuel ->
  visit ast m_currentContract acc node st <> OutOfFuel.
Proof.
  destruct node as [e|e name operand|c t f|c b|loc r|ty children]; simpl;
    intros Hscope Hfuel.
  - unfold visit_Identifier. apply bind_terminates.
    + destruct (referencedDeclaration (annotation e)) as [[v|cd|o]|]; try discriminate.
      apply visitCallable_terminates; [exact Hscope | lia].
    + intros st1 _.
      destruct (referencedDeclaration (annotation e)) as [[v|cd|o]|]; discriminate.
  - unfold visit_MemberAccess.
    destruct (_ && _ && _); [discriminate|].
    destruct Hscope as [Hcallee Hoperand].
    apply bind_terminates; [apply acc_terminates; [exact Hoperand | lia]|].
    intros st1 Hrun. apply acc_extends in Hrun. destruct Hrun as [_ Hgrows].
    apply weight_grows with (scope := scope) (bound := bound) in Hgrows.
    destruct (referencedDeclaration (annotation e)) as [[v|cd|o]|]; try discriminate;
      (destruct (type (annotation e)) as [kind [decl|]| |]; try discriminate;
       destruct kind; try discriminate;
       (apply visitCallable_terminates; [destruct decl; auto | lia])).
  - unfold visit_IfStatement. destruct Hscope as (Hc & Ht & Hf).
    apply bind_terminates; [apply acc_terminates; [exact Hc | lia]|].
    intros st1 H1. apply acc_extends in H1. destruct H1 as [_ Hg1].
    apply weight_grows with (scope := scope) (bound := bound) in Hg1.
    apply bind_terminates;
      [apply acc_terminates; [exact Ht | unfold weight in *; simpl; lia]|].
    intros st2 H2. apply acc_extends in H2. destruct H2 as [_ Hg2].
    apply weight_grows with (scope := scope) (bound := bound) in Hg2.
    apply bind_terminates; [|discriminate].
    apply option_accept_terminates; [exact Hf|].
    unfold weight in *; simpl in *. destruct f; lia.
  - unfold visit_WhileStatement. destruct Hscope as (Hc & Hb).
    apply bind_terminates;
      [apply acc_terminates; [exact Hc | unfold weight in *; simpl; lia]|].
    intros st1 H1. apply acc_extends in H1. destruct H1 as [_ Hg1].
    apply weight_grows with (scope := scope) (bound := bound) in Hg1.
    apply bind_terminates; [|discriminate].
    apply acc_terminates; [exact Hb | unfold weight in *; simpl in *; lia].
  - unfold visit_Return.
    destruct (m_currentConstructor st).
    + apply bind_terminates; [|discriminate].
      apply option_accept_terminates; [exact Hscope | lia].
    + apply option_accept_terminates; [exact Hscope | lia].
  - apply listAccept_terminates
      with (d := fold_right (fun child d => max (depth child) d) 0 children); [|lia].
    intros child Hin. split.
    + eapply inScope_children; eauto.
    + apply depth_children, Hin.
Qed.

End VisitTerminates.

Lemma accept_terminates ast m_currentContract scope bound fuel node st :
  closed ast m_currentContract scope bound ->
  inScope ast m_currentContract scope node ->
  depth node + weight scope bound st <= fuel ->
  accept ast m_currentContract fuel node st <> OutOfFuel.
Proof.
  intros Hclosed. revert node st.
  induction fuel as [|fuel IH]; intros node st Hscope Hfuel.
  - pose proof (depth_pos node). lia.
  - simpl. apply visit_terminates with (scope := scope) (bound := bound) (fuel := fuel).
    + exact Hclosed.
    + intros child s s'. apply accept_extends.
    + exact IH.
    + exact Hscope.
    + exact Hfuel.
Qed.

Section AnalyzeTerminates.

Variable ast : AST.
Variable m_currentContract : CurrentContract.
Variable scope : gset CallableDeclarationPtr.
Variable bound : nat.
Variable fuel : nat.

Hypothesis scope_closed : closed ast m_currentContract scope bound.
Hypothesis roots : rootsBounded ast m_currentContract scope bound.

Lemma covers_grows st st' :
  grows st st' -> covers scope bound fuel st -> covers scope bound fuel st'.
Proof.
  unfold covers. intros Hgrows Hst.
  pose proof (weight_grows scope bound st st' Hgrows). lia.
Qed.

Lemma covers_any st : bound + size scope * (bound + 2) <= fuel -> covers scope bound fuel st.
Proof.
  unfold covers, weight. intros Hfuel.
  assert (size (scope ∖ m_visitedCallables st) <= size scope)
    by (apply subseteq_size, subseteq_difference_l; reflexivity).
  nia.
Qed.

Lemma top_visitCallable_terminates c st :
  c ∈ scope -> covers scope bound fuel st ->
  visitCallable ast (accept ast m_currentContract fuel) (CallablePtr c) st <> OutOfFuel
  /\ forall st',
       visitCallable ast (accept ast m_currentContract fuel) (CallablePtr c) st = Ok st' ->
       covers scope bound fuel st'.
Proof.
  intros Hc Hst. split.
  - apply visitCallable_terminates
      with (m_currentContract := m_currentContract) (scope := scope) (bound := bound)
           (fuel := fuel).
    + exact scope_closed.
    + intros node s s'. apply accept_extends.
    + intros node s. apply accept_terminates, scope_closed.
    + exact Hc.
    + unfold covers in Hst. lia.
  - intros st' Hrun. apply visitCallable_extends in Hrun.
    + destruct Hrun as [_ Hgrows]. eapply covers_grows; eauto.
    + intros node s s'. apply accept_extends.
Qed.

Lemma top_listAccept_terminates nodes st :
  (forall node, In node nodes -> bounded ast m_currentContract scope bound node) ->
  covers scope bound fuel st ->
  listAccept (accept ast m_currentContract fuel) nodes st <> OutOfFuel
  /\ forall st',
       listAccept (accept ast m_currentContract fuel) nodes st = Ok st' ->
       covers scope bound fuel st'.
Proof.
  intros Hnodes Hst. split.
  - apply listAccept_terminates
      with (ast := ast) (m_currentContract := m_currentContract) (scope := scope)
           (bound := bound) (fuel := fuel) (d := bound).
    + intros node s s'. apply accept_extends.
    + intros node s. apply accept_terminates, scope_closed.
    + exact Hnodes.
    + exact Hst.
  - intros st' Hrun. apply listAccept_extends in Hrun.
    + destruct Hrun as [_ Hgrows]. eapply covers_grows; eauto.
    + intros node s s'. apply accept_extends.
Qed.

Lemma acceptInitializer_terminates stateVar st :
  In stateVar (stateVariablesIncludingInherited m_currentContract) ->
  covers scope bound fuel st ->
  acceptInitializer ast m_currentContract fuel stateVar st <> OutOfFuel
  /\ forall st',
       acceptInitializer ast m_currentContract fuel stateVar st = Ok st' ->
       covers scope bound fuel st'.
Proof.
  intros Hin Hst. split.
  - unfold acceptInitializer.
    destruct (value (variableDeclaration ast stateVar)) as [initializer|] eqn:Hvalue;
      [|discriminate].
    destruct roots as [Hinit _].
    destruct (Hinit stateVar initializer Hin Hvalue) as [Hscope Hdepth].
    apply bind_terminates.
    + apply accept_terminates with (scope := scope) (bound := bound); auto.
      unfold covers in Hst. lia.
    + intros st1 _. case_bool_decide; discriminate.
  - intros st' Hrun. apply acceptInitializer_records in Hrun.
    destruct Hrun as [Hgrows _]. eapply covers_grows; eauto.
Qed.

Lemma visitConstructor_terminates contract st :
  In contract (linearizedBaseContracts m_currentContract) ->
  covers scope bound fuel st ->
  visitConstructor ast m_currentContract fuel contract st <> OutOfFuel
  /\ forall st',
       visitConstructor ast m_currentContract fuel contract st = Ok st' ->
       covers scope bound fuel st'.
Proof.
  intros Hin Hst. unfold visitConstructor.
  destruct roots as [_ Hcontracts]. destruct (Hcontracts contract Hin) as (Hctor & _).
  destruct (constructor contract) as [ctor|].
  - apply top_visitCallable_terminates; auto.
  - split; [discriminate | intros st' [= <-]; exact Hst].
Qed.

Lemma acceptBaseArguments_terminates contract st :
  In contract (linearizedBaseContracts m_currentContract) ->
  covers scope bound fuel st ->
  acceptBaseArguments ast m_currentContract fuel contract st <> OutOfFuel
  /\ forall st',
       acceptBaseArguments ast m_currentContract fuel contract st = Ok st' ->
       covers scope bound fuel st'.
Proof.
  intros Hin Hst. unfold acceptBaseArguments.
  destruct roots as [_ Hcontracts].
  destruct (Hcontracts contract Hin) as (_ & _ & _ & Hargs).
  apply forEach_terminates; [|exact Hst].
  intros inheritSpec s HinSpec Hs.
  destruct (arguments inheritSpec) as [args|] eqn:Harguments.
  - apply top_listAccept_terminates; [|exact Hs].
    intros arg Harg. eapply Hargs; eauto.
  - split; [discriminate | intros st' [= <-]; exact Hs].
Qed.

Lemma visitFunctionsAndModifiers_terminates contract st :
  In contract (linearizedBaseContracts m_currentContract) ->
  covers scope bound fuel st ->
  visitFunctionsAndModifiers ast m_currentContract fuel contract st <> OutOfFuel
  /\ forall st',
       visitFunctionsAndModifiers ast m_currentContract fuel contract st = Ok st' ->
       covers scope bound fuel st'.
Proof.
  intros Hin Hst. unfold visitFunctionsAndModifiers.
  destruct roots as [_ Hcontracts].
  destruct (Hcontracts contract Hin) as (_ & Hfuncs & Hmods & _).
  assert (Hfirst :
    forEach (definedFunctions contract)
      (fun funcDef s =>
         visitCallable ast (accept ast m_currentContract fuel)
           (CallablePtr (FunctionPtr funcDef)) s) st <> OutOfFuel
    /\ forall st',
         forEach (definedFunctions contract)
           (fun funcDef s =>
              visitCallable ast (accept ast m_currentContract fuel)
                (CallablePtr (FunctionPtr funcDef)) s) st = Ok st' ->
         covers scope bound fuel st').
  { apply forEach_terminates; [|exact Hst].
    intros funcDef s Hf Hs. apply top_visitCallable_terminates; auto. }
  destruct Hfirst as [Hrun Hkeep].
  assert (Hsecond : forall st1, covers scope bound fuel st1 ->
    forEach (functionModifiers contract)
      (fun modDef s =>
         visitCallable ast (accept ast m_currentContract fuel)
           (CallablePtr (ModifierPtr modDef)) s) st1 <> OutOfFuel
    /\ forall st',
         forEach (functionModifiers contract)
           (fun modDef s =>
              visitCallable ast (accept ast m_currentContract fuel)
                (CallablePtr (ModifierPtr modDef)) s) st1 = Ok st' ->
         covers scope bound fuel st').
  { intros st1 Hst1. apply forEach_terminates; [|exact Hst1].
    intros modDef s Hm Hs. apply top_visitCallable_terminates; auto. }
  split.
  - apply bind_terminates; [exact Hrun|].
    intros st1 H1. apply (Hsecond st1 (Hkeep st1 H1)).
  - intros st'. rewrite bind_Ok. intros (st1 & H1 & H2).
    apply (Hsecond st1 (Hkeep st1 H1)). exact H2.
Qed.

Lemma in_linearizeContracts contract :
  In contract (linearizeContracts m_currentContract) ->
  In contract (linearizedBaseContracts m_currentContract).
Proof. unfold linearizeContracts. rewrite <- in_rev. auto. Qed.

(** With depth for one root and for every callable in scope, [analyze]
    returns or trips an assertion: it does not run out of depth. *)
Lemma analyze_terminates st :
  bound + size scope * (bound + 2) <= fuel ->
  analyze ast m_currentContract fuel st <> OutOfFuel.
Proof.
  intros Hfuel. unfold analyze.
  assert (Hany : forall s, covers scope bound fuel s) by (intros s; apply covers_any, Hfuel).
  apply bind_terminates.
  { unfold inlineInitializers.
    apply (forEach_terminates _ (covers scope bound fuel)); [|apply Hany].
    intros x s Hx Hs. apply acceptInitializer_terminates; assumption. }
  intros st1 _. apply bind_terminates.
  { unfold constructorBodies.
    apply (forEach_terminates _ (covers scope bound fuel)); [|apply Hany].
    intros x s Hx Hs. apply visitConstructor_terminates;
      [apply in_linearizeContracts|]; assumption. }
  intros st2 _. apply bind_terminates.
  { unfold baseConstructorArguments.
    apply (forEach_terminates _ (covers scope bound fuel)); [|apply Hany].
    intros x s Hx Hs. apply acceptBaseArguments_terminates;
      [apply in_linearizeContracts|]; assumption. }
  intros st3 _. apply bind_terminates; [|discriminate].
  unfold functionAndModifierBodies.
  apply (forEach_terminates _ (covers scope bound fuel)); [|apply Hany].
  intros x s Hx Hs. apply visitFunctionsAndModifiers_terminates;
    [apply in_linearizeContracts|]; assumption.
Qed.

End AnalyzeTerminates.

Lemma analyze_stable ast m_currentContract fuel st :
  analyze ast m_currentContract fuel st <> OutOfFuel ->
  analyze ast m_currentContract (S fuel) st = analyze ast m_currentContract fuel st.
Proof.
  assert (Haccept : forall node s,
            accept ast m_currentContract fuel node s <> OutOfFuel ->
            accept ast m_currentContract (S fuel) node s
            = accept ast m_currentContract fuel node s)
    by (intros node s; apply accept_S).
  assert (Hcallable : forall d s,
            visitCallable ast (accept ast m_currentContract fuel) d s <> OutOfFuel ->
            visitCallable ast (accept ast m_currentContract (S fuel)) d s
            = visitCallable ast (accept ast m_currentContract fuel) d s)
    by (intros d s; apply visitCallable_stable, Haccept).
  unfold analyze. apply bind_stable.
  { apply forEach_stable. intros stateVar s. unfold acceptInitializer.
    destruct (value (variableDeclaration ast stateVar)); [|reflexivity].
    apply bind_stable; [apply Haccept | reflexivity]. }
  intros st1. apply bind_stable.
  { apply forEach_stable. intros contract s. unfold visitConstructor.
    destruct (constructor contract); [apply Hcallable | reflexivity]. }
  intros st2. apply bind_stable.
  { apply forEach_stable. intros contract s. unfold acceptBaseArguments.
    apply forEach_stable. intros inheritSpec s'.
    destruct (arguments inheritSpec); [|reflexivity].
    apply listAccept_stable, Haccept. }
  intros st3. apply bind_stable; [|reflexivity].
  apply forEach_stable. intros contract s. unfold visitFunctionsAndModifiers.
  apply bind_stable.
  - apply forEach_stable. intros funcDef s'. apply Hcallable.
  - intros s1. apply forEach_stable. intros modDef s'. apply Hcallable.
Qed.

(** The sample hierarchy meets the conditions of [analyze_terminates]. *)
Lemma sample_closed : closed Sample.ast Sample.currentContract Sample.scope 4.
Proof.
  intros c node Hc Hnode. unfold Sample.scope in Hc.
  rewrite !elem_of_union, !elem_of_singleton in Hc.
  destruct Hc as [[-> | ->] | ->]; simpl in Hnode;
    (destruct Hnode as [<- | []]); (split; [|simpl; lia]); simpl; auto.
Qed.

Lemma sample_rootsBounded : rootsBounded Sample.ast Sample.currentContract Sample.scope 4.
Proof.
  assert (H0 : FunctionPtr 0 ∈ Sample.scope)
    by (unfold Sample.scope; rewrite !elem_of_union, !elem_of_singleton; auto).
  assert (H1 : FunctionPtr 1 ∈ Sample.scope)
    by (unfold Sample.scope; rewrite !elem_of_union, !elem_of_singleton; auto).
  assert (H2 : FunctionPtr 2 ∈ Sample.scope)
    by (unfold Sample.scope; rewrite !elem_of_union, !elem_of_singleton; auto).
  split.
  - intros stateVar initializer Hin Hvalue. simpl in Hin.
    destruct Hin as [<- | [<- | []]]; simpl in Hvalue; [discriminate|].
    injection Hvalue as <-. split; simpl; [exact I | lia].
  - intros contract Hin. simpl in Hin. destruct Hin as [<- | [<- | []]]; simpl.
    + split; [discriminate|].
      split; [intros funcDef [<- | []]; exact H2|].
      split; [intros modDef []|].
      intros inheritSpec args arg [<- | []] Harguments. discriminate Harguments.
    + split; [intros ctor [= <-]; exact H0|].
      split; [intros funcDef [<- | [<- | []]]; assumption|].
      split; [intros modDef []|].
      intros inheritSpec args arg [].
Qed.

Lemma sample_analysis_terminates :
  analyze Sample.ast Sample.currentContract 22 initialState <> OutOfFuel.
Proof.
  apply analyze_terminates with (scope := Sample.scope) (bound := 4).
  - exact sample_closed.
  - exact sample_rootsBounded.
  - assert (Hsize : size Sample.scope = 3) by reflexivity.
    rewrite Hsize. simpl. lia.
Qed.

(** ** The loop bodies of [analyze] restore the flags too *)

Lemma top_visitCallable_extends ast m_currentContract fuel d st st' :
  visitCallable ast (accept ast m_currentContract fuel) d st = Ok st' -> extends st st'.
Proof. apply visitCallable_extends. intros node s s'. apply accept_extends. Qed.

Lemma acceptBaseArguments_extends ast m_currentContract fuel contract st st' :
  acceptBaseArguments ast m_currentContract fuel contract st = Ok st' -> extends st st'.
Proof.
  unfold acceptBaseArguments. apply forEach_extends.
  intros inheritSpec s s' _. destruct (arguments inheritSpec).
  - apply listAccept_extends. intros node s1 s2. apply accept_extends.
  - intros [= <-]. apply extends_refl.
Qed.

Lemma visitFunctionsAndModifiers_extends ast m_currentContract fuel contract st st' :
  visitFunctionsAndModifiers ast m_currentContract fuel contract st = Ok st' ->
  extends st st'.
Proof.
  unfold visitFunctionsAndModifiers. rewrite bind_Ok. intros (st1 & H1 & H2).
  eapply extends_trans.
  - eapply forEach_extends; [|exact H1].
    intros funcDef s s' _. apply top_visitCallable_extends.
  - eapply forEach_extends; [|exact H2].
    intros modDef s s' _. apply top_visitCallable_extends.
Qed.

Lemma analyze_more_fuel ast m_currentContract fuel extra st :
  analyze ast m_currentContract fuel st <> OutOfFuel ->
  analyze ast m_currentContract (extra + fuel) st = analyze ast m_currentContract fuel st.
Proof.
  intros Hrun. induction extra as [|extra IH]; [reflexivity|].
  change (S extra + fuel) with (S (extra + fuel)).
  rewrite analyze_stable; rewrite IH; auto.
Qed.

(** For a hierarchy whose callables form a finite closed scope, the result
    of [analyze] is the same at every depth from
    [bound + size scope * (bound + 2)] on, and it is not [OutOfFuel]. *)
Lemma analyze_settles ast m_currentContract scope bound fuel fuel' st :
  closed ast m_currentContract scope bound ->
  rootsBounded ast m_currentContract scope bound ->
  bound + size scope * (bound + 2) <= fuel -> fuel <= fuel' ->
  analyze ast m_currentContract fuel' st = analyze ast m_currentContract fuel st
  /\ analyze ast m_currentContract fuel st <> OutOfFuel.
Proof.
  intros Hclosed Hroots Hfuel Hmore.
  pose proof (analyze_terminates ast m_currentContract scope bound fuel Hclosed Hroots st Hfuel)
    as Hrun.
  split; [|exact Hrun].
  replace fuel' with ((fuel' - fuel) + fuel) by lia.
  apply analyze_more_fuel, Hrun.
Qed.

(** ** The initialization rule checker *)

(** C1.  A use of an immutable state variable as the target of an ordinary
    assignment reports the first of the five conditions (no constructor,
    constructor of another unit, loop, branch, initialization not allowed)
    that holds, if any; whether or not it did, it then reports "already
    initialized" when the variable is in the initialized set, and leaves
    the variable in the set in either case. *)
Theorem plain_write_first_violation_then_record
    (ast : AST) (varDecl : nat) (e : Expression) (st : State) :
  isStateVariable (variableDeclaration ast varDecl) = true ->
  immutable (variableDeclaration ast varDecl) = true ->
  lValueRequested (annotation e) = true ->
  lValueOfOrdinaryAssignment (annotation e) = true ->
  analyseVariableDeclaration ast varDecl e st =
  set_initializedStateVariables ({[ varDecl ]} ∪ m_initializedStateVariables st)
    (addErrors
       (match plainWriteViolation ast (variableDeclaration ast varDecl) st with
        | Some message => [violation (location e) message]
        | None => []
        end
        ++ (if bool_decide (varDecl ∈ m_initializedStateVariables st)
            then [violation (location e) msgAlreadyInitialized]
            else []))
       st).
Proof.
  intros Hstate Himm Hreq Hord.
  unfold analyseVariableDeclaration.
  rewrite Hstate, Himm, Hreq, Hord. simpl.
  unfold plainWriteViolation, plainWriteConditions.
  set (decl := variableDeclaration ast varDecl).
  assert (Hrecord : forall es,
    (if bool_decide (varDecl ∈ m_initializedStateVariables st)
     then typeError (location e) None msgAlreadyInitialized (addErrors es st)
     else set_initializedStateVariables
            ({[ varDecl ]} ∪ m_initializedStateVariables st) (addErrors es st)) =
    set_initializedStateVariables ({[ varDecl ]} ∪ m_initializedStateVariables st)
      (addErrors
         (es ++ (if bool_decide (varDecl ∈ m_initializedStateVariables st)
                 then [violation (location e) msgAlreadyInitialized] else []))
         st)).
  { intros es. case_bool_decide as Hin.
    - rewrite typeError_addErrors, addErrors_addErrors.
      rewrite (insert_present varDecl _ Hin). symmetry.
      apply (set_initializedStateVariables_same (addErrors _ st)).
    - rewrite app_nil_r. reflexivity. }
  destruct (m_currentConstructor st) as [ctor|] eqn:Hctor; simpl.
  - destruct (negb (fn_contract (functionDefinition ast ctor) =? var_contract decl)%Z);
      simpl; [apply (Hrecord [_])|].
    destruct (m_inLoop st); simpl; [apply (Hrecord [_])|].
    destruct (m_inBranch st); simpl; [apply (Hrecord [_])|].
    destruct (m_initializationOfImmutableAllowed st); simpl; [|apply (Hrecord [_])].
    pose proof (Hrecord []) as Hnone. rewrite addErrors_nil in Hnone. exact Hnone.
  - apply (Hrecord [_]).
Qed.

(** A write to [x] in a loop inside a branch of [A]'s constructor. *)
Lemma plain_write_first_violation_then_record_witness :
  let st := set_inBranch true (set_inLoop true Sample.inConstructor) in
  analyseVariableDeclaration Sample.ast 0 (Sample.x_write 60) st =
  set_initializedStateVariables ({[ 0 ]} ∪ m_initializedStateVariables st)
    (addErrors
       (match plainWriteViolation Sample.ast Sample.var_x st with
        | Some message => [violation (mkLoc 60 61) message]
        | None => []
        end
        ++ (if bool_decide (0 ∈ m_initializedStateVariables st)
            then [violation (mkLoc 60 61) msgAlreadyInitialized]
            else []))
       st).
Proof.
  exact (plain_write_first_violation_then_record Sample.ast 0 (Sample.x_write 60)
           (set_inBranch true (set_inLoop true Sample.inConstructor))
           eq_refl eq_refl eq_refl eq_refl).
Defined.

(** C2.  Any other use of an immutable state variable (one that is not the
    target of an ordinary assignment) reports "cannot be read" exactly when
    reading is not allowed, and changes nothing else: the initialized set
    in particular stays as it was. *)
Theorem plain_read_reports_iff_reading_forbidden
    (ast : AST) (varDecl : nat) (e : Expression) (st : State) :
  isStateVariable (variableDeclaration ast varDecl) = true ->
  immutable (variableDeclaration ast varDecl) = true ->
  lValueRequested (annotation e) && lValueOfOrdinaryAssignment (annotation e) = false ->
  analyseVariableDeclaration ast varDecl e st =
    (if m_readingOfImmutableAllowed st then st
     else addErrors [violation (location e) msgRead] st)
  /\ m_initializedStateVariables (analyseVariableDeclaration ast varDecl e st)
     = m_initializedStateVariables st.
Proof.
  intros Hstate Himm Hread.
  unfold analyseVariableDeclaration.
  rewrite Hstate, Himm, Hread. simpl.
  destruct (m_readingOfImmutableAllowed st); simpl; split; reflexivity.
Qed.

(** A read of [x] in [A]'s constructor. *)
Lemma plain_read_reports_iff_reading_forbidden_witness :
  analyseVariableDeclaration Sample.ast 0 (Sample.x_read 130) Sample.inConstructor =
    addErrors [violation (mkLoc 130 131) msgRead] Sample.inConstructor
  /\ m_initializedStateVariables
       (analyseVariableDeclaration Sample.ast 0 (Sample.x_read 130) Sample.inConstructor)
     = ∅.
Proof.
  exact (plain_read_reports_iff_reading_forbidden Sample.ast 0 (Sample.x_read 130)
           Sample.inConstructor eq_refl eq_refl eq_refl).
Defined.

(** ** The completeness checker *)

(** C3.  [checkAllVariablesInitialized] at a location reports, in the order
    of the unit's state variables (inherited ones included), one violation
    at that location for every immutable one that is absent from the
    initialized set, with the variable's declaration as secondary location;
    it reports nothing else and changes nothing else. *)
Theorem checkAllVariablesInitialized_reports_unresolved
    (ast : AST) (m_currentContract : CurrentContract) (loc : SourceLocation) (st : State) :
  checkAllVariablesInitialized ast m_currentContract loc st =
  addErrors
    (map (incomplete ast loc)
       (unresolvedImmutables ast m_currentContract (m_initializedStateVariables st)))
    st.
Proof. apply checkVariables_filter. Qed.

(** ** The override resolver *)

(** C4.  [findFinalOverride] returns a callable without virtual semantics
    unchanged; for a virtual function, the first function declared along
    the linearized base list (most derived first) with the same name,
    parameter types and return types; for a virtual modifier, the first
    declared modifier with the same name; and the callable itself when
    there is no such declaration. *)
Theorem findFinalOverride_resolves
    (ast : AST) (m_currentContract : CurrentContract) (callable : CallableDeclarationPtr) :
  findFinalOverride ast m_currentContract callable =
  resolveFinalOverride ast m_currentContract callable.
Proof.
  unfold findFinalOverride, resolveFinalOverride.
  destruct (virtualSemantics ast callable); simpl; [|reflexivity].
  destruct callable as [p|p].
  - rewrite findFunctionInContracts_find. reflexivity.
  - rewrite findModifierInContracts_find.
    reflexivity.
Qed.

(** ** The traversal engine *)

(** C7.  When a current constructor is set, a return statement visits its
    expression, if it has one, and then runs the completeness check at the
    location of the return; when none is set, it is traversed like any
    other node with the expression as its only child, and no completeness
    check is run. *)
Theorem return_checks_completeness_in_constructor_only
    (ast : AST) (m_currentContract : CurrentContract) (fuel : nat)
    (loc : SourceLocation) (retExpr : option ASTNode) (st : State) :
  (m_currentConstructor st <> None ->
   accept ast m_currentContract (S fuel) (Return loc retExpr) st =
   do st1 <- match retExpr with
             | Some e => accept ast m_currentContract fuel e st
             | None => Ok st
             end;
   Ok (checkAllVariablesInitialized ast m_currentContract loc st1))
  /\ (m_currentConstructor st = None ->
      accept ast m_currentContract (S fuel) (Return loc retExpr) st =
      accept ast m_currentContract (S fuel)
        (GenericNode OtherType (match retExpr with Some e => [e] | None => [] end)) st).
Proof.
  split; intros Hctor; simpl; unfold visit_Return.
  - destruct (m_currentConstructor st); [reflexivity | contradiction].
  - rewrite Hctor. destruct retExpr as [e|]; simpl; [|reflexivity].
    symmetry. apply bind_ret.
Qed.

(** [return;] inside and outside [A]'s constructor. *)
Lemma return_checks_completeness_in_constructor_only_witness :
  (m_currentConstructor Sample.inConstructor <> None ->
   accept Sample.ast Sample.currentContract 1 (Return (mkLoc 70 77) None)
     Sample.inConstructor =
   do st1 <- Ok Sample.inConstructor;
   Ok (checkAllVariablesInitialized Sample.ast Sample.currentContract (mkLoc 70 77) st1))
  /\ (m_currentConstructor Sample.constructing = None ->
      accept Sample.ast Sample.currentContract 1 (Return (mkLoc 70 77) None)
        Sample.constructing =
      accept Sample.ast Sample.currentContract 1 (GenericNode OtherType [])
        Sample.constructing).
Proof.
  split.
  - exact (proj1 (return_checks_completeness_in_constructor_only Sample.ast
                    Sample.currentContract 0 (mkLoc 70 77) None Sample.inConstructor)).
  - exact (proj2 (return_checks_completeness_in_constructor_only Sample.ast
                    Sample.currentContract 0 (mkLoc 70 77) None Sample.constructing)).
Defined.

(** C8.  A member access named "selector" whose operand has a function
    type and whose own type is a fixed-size byte type is left at once:
    the operand is not visited, no callable is entered, and the state,
    with its reports and its two sets, is returned as it was. *)
Theorem selector_access_is_not_traversed
    (ast : AST) (m_currentContract : CurrentContract) (fuel : nat)
    (e : Expression) (operand : ASTNode) (st : State)
    (kind : FunctionKind) (decl : option DeclarationPtr) (numBytes : nat) :
  annotationType operand = FunctionType kind decl ->
  type (annotation e) = FixedBytesType numBytes ->
  accept ast m_currentContract (S fuel) (MemberAccess e "selector" operand) st = Ok st.
Proof.
  intros Hoperand Hown. simpl. unfold visit_MemberAccess.
  rewrite Hoperand, Hown. reflexivity.
Qed.

(** [f.selector], where [f] is [B]'s [f], which reads [x]. *)
Lemma selector_access_is_not_traversed_witness :
  accept Sample.ast Sample.currentContract 1
    (MemberAccess
       {| location := mkLoc 80 90;
          annotation := Sample.readAnnotation (FixedBytesType 4) None |}
       "selector"
       (Identifier
          {| location := mkLoc 80 81;
             annotation :=
               Sample.readAnnotation
                 (FunctionType Internal (Some (CallablePtr (FunctionPtr 2))))
                 (Some (CallablePtr (FunctionPtr 2))) |}))
    Sample.constructing
  = Ok Sample.constructing.
Proof.
  eapply selector_access_is_not_traversed; reflexivity.
Defined.

(** C9.  An if-statement visits its condition in the state it was entered
    with, then the true arm and, when there is one, the false arm, each
    starting with the branch flag raised; when it returns, the branch flag
    is what it was before the statement. *)
Theorem if_statement_raises_and_restores_branch_flag
    (ast : AST) (m_currentContract : CurrentContract) (fuel : nat)
    (condition trueStatement : ASTNode) (falseStatement : option ASTNode) (st : State) :
  accept ast m_currentContract (S fuel)
    (IfStatement condition trueStatement falseStatement) st =
  (do st1 <- accept ast m_currentContract fuel condition st;
   do st2 <- accept ast m_currentContract fuel trueStatement (set_inBranch true st1);
   do st3 <- match falseStatement with
             | Some falseStatement =>
                 accept ast m_currentContract fuel falseStatement (set_inBranch true st2)
             | None => Ok st2
             end;
   Ok (set_inBranch (m_inBranch st) st3))
  /\ forall st',
       accept ast m_currentContract (S fuel)
         (IfStatement condition trueStatement falseStatement) st = Ok st' ->
       m_inBranch st' = m_inBranch st.
Proof.
  split.
  - simpl. unfold visit_IfStatement.
    destruct (accept ast m_currentContract fuel condition st) as [st1| |]; simpl; auto.
    destruct (accept ast m_currentContract fuel trueStatement (set_inBranch true st1))
      as [st2| |] eqn:Htrue; simpl; auto.
    apply accept_inBranch in Htrue. simpl in Htrue.
    rewrite (set_inBranch_same st2 true Htrue). reflexivity.
  - simpl. unfold visit_IfStatement. intros st' H.
    repeat (apply bind_Ok in H; destruct H as (? & _ & H)).
    injection H as <-. reflexivity.
Qed.

(** [if (<literal>) x = <literal>;] in [A]'s constructor. *)
Lemma if_statement_raises_and_restores_branch_flag_witness :
  accept Sample.ast Sample.currentContract 4
    (IfStatement Sample.literal (Sample.assign_x 60) None) Sample.inConstructor
  = Ok (set_initializedStateVariables {[ 0 ]}
          (addErrors [violation (mkLoc 60 61) msgInBranch] Sample.inConstructor))
  /\ m_inBranch
       (set_initializedStateVariables {[ 0 ]}
          (addErrors [violation (mkLoc 60 61) msgInBranch] Sample.inConstructor))
     = m_inBranch Sample.inConstructor.
Proof.
  assert (Hrun :
    accept Sample.ast Sample.currentContract 4
      (IfStatement Sample.literal (Sample.assign_x 60) None) Sample.inConstructor
    = Ok (set_initializedStateVariables {[ 0 ]}
            (addErrors [violation (mkLoc 60 61) msgInBranch] Sample.inConstructor)))
    by (vm_compute; reflexivity).
  split; [exact Hrun|].
  exact (proj2 (if_statement_raises_and_restores_branch_flag Sample.ast
                  Sample.currentContract 3 Sample.literal (Sample.assign_x 60) None
                  Sample.inConstructor) _ Hrun).
Defined.

(** C5, as the code has it.  An identifier that references a callable
    visits the final override of that callable: it enters the override's
    body unless the override has been visited before.  A member access
    that is a function of internal or declaration kind visits, after its
    operand, the declaration of its own function type, without resolving
    overrides. *)
Theorem call_references_resolve_overrides_for_identifiers_only
    (ast : AST) (m_currentContract : CurrentContract) (fuel : nat) :
  (forall (e : Expression) (callableDef : CallableDeclarationPtr) (st : State),
      referencedDeclaration (annotation e) = Some (CallablePtr callableDef) ->
      let final := findFinalOverride ast m_currentContract callableDef in
      accept ast m_currentContract (S fuel) (Identifier e) st =
        visitCallable ast (accept ast m_currentContract fuel) (CallablePtr final) st
      /\ (final ∉ m_visitedCallables st ->
          accept ast m_currentContract (S fuel) (Identifier e) st =
            analyseCallable ast (accept ast m_currentContract fuel) final
              (set_visitedCallables ({[ final ]} ∪ m_visitedCallables st) st)))
  /\ (forall (e : Expression) (memberName : string) (operand : ASTNode)
             (kind : FunctionKind) (declaration : DeclarationPtr) (st : State),
         (forall varDecl, referencedDeclaration (annotation e) <> Some (VariablePtr varDecl)) ->
         type (annotation e) = FunctionType kind (Some declaration) ->
         kind = Internal \/ kind = Declaration ->
         accept ast m_currentContract (S fuel) (MemberAccess e memberName operand) st =
           do st1 <- accept ast m_currentContract fuel operand st;
           visitCallable ast (accept ast m_currentContract fuel) declaration st1).
Proof.
  split.
  - intros e callableDef st Href final.
    assert (Hvisit :
      accept ast m_currentContract (S fuel) (Identifier e) st =
      visitCallable ast (accept ast m_currentContract fuel) (CallablePtr final) st).
    { simpl. unfold visit_Identifier. rewrite Href. apply bind_ret. }
    split; [exact Hvisit|].
    intros Hnew. rewrite Hvisit. unfold visitCallable.
    rewrite bool_decide_eq_false_2 by exact Hnew.
    apply acceptCallable_analyseCallable.
  - intros e memberName operand kind declaration st Hnovar Htype Hkind.
    simpl. unfold visit_MemberAccess. rewrite Htype.
    rewrite andb_false_r.
    destruct (accept ast m_currentContract fuel operand st) as [st1| |]; simpl; auto.
    destruct (referencedDeclaration (annotation e)) as [[v|c|o]|] eqn:Href;
      try (exfalso; exact (Hnovar v eq_refl));
      destruct Hkind as [-> | ->]; reflexivity.
Qed.

(** [f] and [A.f] while [B] is constructed. *)
Lemma call_references_resolve_overrides_for_identifiers_only_witness :
  (let final := findFinalOverride Sample.ast Sample.currentContract (FunctionPtr 1) in
   accept Sample.ast Sample.currentContract 4 (Identifier Sample.f_reference)
     Sample.constructing =
     visitCallable Sample.ast (accept Sample.ast Sample.currentContract 3)
       (CallablePtr final) Sample.constructing
   /\ (final ∉ m_visitedCallables Sample.constructing ->
       accept Sample.ast Sample.currentContract 4 (Identifier Sample.f_reference)
         Sample.constructing =
         analyseCallable Sample.ast (accept Sample.ast Sample.currentContract 3) final
           (set_visitedCallables ({[ final ]} ∪ m_visitedCallables Sample.constructing)
              Sample.constructing)))
  /\ accept Sample.ast Sample.currentContract 4 Sample.A_f_access Sample.constructing =
       do st1 <- accept Sample.ast Sample.currentContract 3
                   (Identifier
                      {| location := mkLoc 64 65;
                         annotation :=
                           Sample.readAnnotation OtherType (Some (OtherDeclarationPtr 1)) |})
                   Sample.constructing;
       visitCallable Sample.ast (accept Sample.ast Sample.currentContract 3)
         (CallablePtr (FunctionPtr 1)) st1.
Proof.
  split.
  - exact (proj1 (call_references_resolve_overrides_for_identifiers_only Sample.ast
                    Sample.currentContract 3)
             Sample.f_reference (FunctionPtr 1) Sample.constructing eq_refl).
  - apply (proj2 (call_references_resolve_overrides_for_identifiers_only Sample.ast
                    Sample.currentContract 3)) with (kind := Internal).
    + intros varDecl. discriminate.
    + reflexivity.
    + left. reflexivity.
Defined.

(** C5, as the specification words it, fails for member accesses: with [B]
    under analysis, [A.f] is visited while constructing; the final override
    of [A]'s [f] is [B]'s [f], whose body reads [x]; yet the traversal
    enters [A]'s [f], never [B]'s, and reports nothing, whereas the
    identifier [f] enters [B]'s [f] and reports the read. *)
Lemma member_access_enters_the_named_body :
  findFinalOverride Sample.ast Sample.currentContract (FunctionPtr 1) = FunctionPtr 2
  /\ accept Sample.ast Sample.currentContract 4 Sample.A_f_access Sample.constructing
     = Ok (set_visitedCallables {[ FunctionPtr 1 ]} Sample.constructing)
  /\ (FunctionPtr 2 ∉ m_visitedCallables
                        (set_visitedCallables {[ FunctionPtr 1 ]} Sample.constructing))
  /\ accept Sample.ast Sample.currentContract 4 (Identifier Sample.f_reference)
       Sample.constructing
     = Ok (addErrors [violation (mkLoc 130 131) msgRead]
             (set_visitedCallables {[ FunctionPtr 2 ]} Sample.constructing)).
Proof.
  split; [reflexivity|].
  split; [vm_compute; reflexivity|].
  split; [|vm_compute; reflexivity].
  simpl. rewrite elem_of_singleton. discriminate.
Qed.

(** C6, as the code has it.  Phase 3 (arguments of base constructors, with
    initialization not allowed) and phase 4 (bodies of the declared
    functions and modifiers, with reading allowed) take the ancestors most
    basic first, as phase 2 does: the items of an ancestor are visited
    after those of every ancestor behind it in the linearized base list
    and before those of every ancestor in front of it, and its visit starts
    with the flag of the phase still in force. *)
Theorem argument_and_body_phases_go_most_base_first
    (ast : AST) (m_currentContract : CurrentContract) (fuel : nat)
    (moreDerived moreBasic : list ContractDefinition) (contract : ContractDefinition)
    (st : State) :
  linearizedBaseContracts m_currentContract = (moreDerived ++ contract :: moreBasic)%list ->
  (baseConstructorArguments ast m_currentContract fuel st =
    (do st1 <- forEach (rev moreBasic) (acceptBaseArguments ast m_currentContract fuel)
                 (set_initializationOfImmutableAllowed false st);
     do st2 <- acceptBaseArguments ast m_currentContract fuel contract st1;
     forEach (rev moreDerived) (acceptBaseArguments ast m_currentContract fuel) st2)
   /\ forall st1,
        forEach (rev moreBasic) (acceptBaseArguments ast m_currentContract fuel)
          (set_initializationOfImmutableAllowed false st) = Ok st1 ->
        m_initializationOfImmutableAllowed st1 = false)
  /\ (functionAndModifierBodies ast m_currentContract fuel st =
    (do st1 <- forEach (rev moreBasic) (visitFunctionsAndModifiers ast m_currentContract fuel)
                 (set_readingOfImmutableAllowed true st);
     do st2 <- visitFunctionsAndModifiers ast m_currentContract fuel contract st1;
     forEach (rev moreDerived) (visitFunctionsAndModifiers ast m_currentContract fuel) st2)
   /\ forall st1,
        forEach (rev moreBasic) (visitFunctionsAndModifiers ast m_currentContract fuel)
          (set_readingOfImmutableAllowed true st) = Ok st1 ->
        m_readingOfImmutableAllowed st1 = true).
Proof.
  intros Hlinearized.
  unfold baseConstructorArguments, functionAndModifierBodies, linearizeContracts.
  rewrite Hlinearized, rev_app_distr. simpl rev.
  rewrite <- !app_assoc. simpl app.
  split; (split; [rewrite forEach_app; reflexivity|]); intros st1 Hrun.
  - apply forEach_extends in Hrun.
    + destruct Hrun as [Hflags _]. unfold flags in Hflags. simpl in Hflags. congruence.
    + intros c s s' _. apply acceptBaseArguments_extends.
  - apply forEach_extends in Hrun.
    + destruct Hrun as [Hflags _]. unfold flags in Hflags. simpl in Hflags. congruence.
    + intros c s s' _. apply visitFunctionsAndModifiers_extends.
Qed.

(** The chain [C; B; A], split at [B]. *)
Lemma argument_and_body_phases_go_most_base_first_witness :
  (baseConstructorArguments Chain.ast Chain.currentContract 3 Sample.constructing =
    (do st1 <- forEach (rev [Chain.A])
                 (acceptBaseArguments Chain.ast Chain.currentContract 3)
                 (set_initializationOfImmutableAllowed false Sample.constructing);
     do st2 <- acceptBaseArguments Chain.ast Chain.currentContract 3 Chain.B st1;
     forEach (rev [Chain.C]) (acceptBaseArguments Chain.ast Chain.currentContract 3) st2)
   /\ m_initializationOfImmutableAllowed
        (set_initializationOfImmutableAllowed false Sample.constructing) = false)
  /\ (functionAndModifierBodies Chain.ast Chain.currentContract 3 Sample.constructing =
    (do st1 <- forEach (rev [Chain.A])
                 (visitFunctionsAndModifiers Chain.ast Chain.currentContract 3)
                 (set_readingOfImmutableAllowed true Sample.constructing);
     do st2 <- visitFunctionsAndModifiers Chain.ast Chain.currentContract 3 Chain.B st1;
     forEach (rev [Chain.C])
       (visitFunctionsAndModifiers Chain.ast Chain.currentContract 3) st2)
   /\ m_readingOfImmutableAllowed
        (set_readingOfImmutableAllowed true Sample.constructing) = true).
Proof.
  destruct (argument_and_body_phases_go_most_base_first Chain.ast Chain.currentContract 3
              [Chain.C] [Chain.A] Chain.B Sample.constructing eq_refl)
    as [[Harguments Hforbidden] [Hbodies Hallowed]].
  split; split.
  - exact Harguments.
  - apply Hforbidden. reflexivity.
  - exact Hbodies.
  - apply Hallowed. reflexivity.
Defined.

(** C6, as the specification words it, fails: with the linearized base list
    [C; B; A], phase 3 reports the read in the arguments [B] passes to [A]
    (offset 20) before the read in the arguments [C] passes to [B] (offset
    30), and phase 4 reports the write in [B]'s function (offset 220) before
    those in [C]'s function (offset 230); taking the most derived unit first
    would give the opposite orders. *)
Lemma argument_and_body_phases_not_most_derived_first :
  reportedAt (baseConstructorArguments Chain.ast Chain.currentContract 3
                Sample.constructing)
    = Some [mkLoc 20 21; mkLoc 30 31]
  /\ reportedAt (baseConstructorArguments_mostDerivedFirst Chain.ast Chain.currentContract 3
                   Sample.constructing)
    = Some [mkLoc 30 31; mkLoc 20 21]
  /\ reportedAt (functionAndModifierBodies Chain.ast Chain.currentContract 6
                   Sample.constructing)
    = Some [mkLoc 220 221; mkLoc 230 231; mkLoc 230 231]
  /\ reportedAt (functionAndModifierBodies_mostDerivedFirst Chain.ast Chain.currentContract 6
                   Sample.constructing)
    = Some [mkLoc 230 231; mkLoc 220 221; mkLoc 220 221].
Proof. repeat split; vm_compute; reflexivity. Qed.

(** ** The initialized set *)

(** C10.  Phase 1, when it returns, has put every state variable of the
    unit that has an inline initializer into the initialized set, immutable
    or not.  The reports that consult the set look at immutables only: the
    reports of a use of a variable, and those of the completeness check, are
    the same for any two sets that hold the same immutables. *)
Theorem initialized_set_holds_all_but_only_immutables_count
    (ast : AST) (m_currentContract : CurrentContract) :
  (forall (fuel : nat) (st st' : State) (stateVar : nat),
      inlineInitializers ast m_currentContract fuel st = Ok st' ->
      stateVar ∈ stateVariablesIncludingInherited m_currentContract ->
      value (variableDeclaration ast stateVar) <> None ->
      stateVar ∈ m_initializedStateVariables st')
  /\ (forall (varDecl : nat) (e : Expression) (st : State) (s : gset nat),
         agreeOnImmutables ast (m_initializedStateVariables st) s ->
         m_errors (analyseVariableDeclaration ast varDecl e
                     (set_initializedStateVariables s st))
         = m_errors (analyseVariableDeclaration ast varDecl e st))
  /\ (forall (loc : SourceLocation) (st : State) (s : gset nat),
         agreeOnImmutables ast (m_initializedStateVariables st) s ->
         m_errors (checkAllVariablesInitialized ast m_currentContract loc
                     (set_initializedStateVariables s st))
         = m_errors (checkAllVariablesInitialized ast m_currentContract loc st)).
Proof.
  split; [|split].
  - intros fuel st st' stateVar Hphase Hin Hvalue.
    unfold inlineInitializers in Hphase.
    apply forEach_acceptInitializer_records in Hphase.
    destruct Hphase as [_ Hall]. apply Hall; assumption.
  - intros varDecl e st s Hagree.
    unfold analyseVariableDeclaration.
    destruct (isStateVariable (variableDeclaration ast varDecl)); simpl; [|reflexivity].
    destruct (immutable (variableDeclaration ast varDecl)) eqn:Himm; simpl; [|reflexivity].
    destruct (lValueRequested (annotation e) && lValueOfOrdinaryAssignment (annotation e)).
    + assert (Hb : bool_decide (varDecl ∈ s)
                   = bool_decide (varDecl ∈ m_initializedStateVariables st)).
      { apply bool_decide_ext. symmetry. apply Hagree, Himm. }
      simpl.
      destruct (m_currentConstructor st) as [ctor|]; simpl.
      * destruct (negb (fn_contract (functionDefinition ast ctor)
                        =? var_contract (variableDeclaration ast varDecl))%Z),
                 (m_inLoop st), (m_inBranch st),
                 (m_initializationOfImmutableAllowed st);
          simpl; rewrite Hb;
          destruct (bool_decide (varDecl ∈ m_initializedStateVariables st)); reflexivity.
      * rewrite Hb.
        destruct (bool_decide (varDecl ∈ m_initializedStateVariables st)); reflexivity.
    + simpl. destruct (m_readingOfImmutableAllowed st); reflexivity.
  - intros loc st s Hagree.
    unfold checkAllVariablesInitialized. rewrite !checkVariables_filter. simpl.
    fold (unresolvedImmutables ast m_currentContract s).
    fold (unresolvedImmutables ast m_currentContract (m_initializedStateVariables st)).
    rewrite (unresolvedImmutables_agree ast m_currentContract _ _ Hagree). reflexivity.
Qed.

(** [y], which is not immutable, enters the set in phase 1 and changes no report. *)
Lemma initialized_set_holds_all_but_only_immutables_count_witness :
  1 ∈ m_initializedStateVariables
        (set_initializedStateVariables {[ 1 ]} Sample.constructing)
  /\ m_errors (analyseVariableDeclaration Sample.ast 0 (Sample.x_write 60)
                 (set_initializedStateVariables {[ 1 ]} Sample.inConstructor))
     = m_errors (analyseVariableDeclaration Sample.ast 0 (Sample.x_write 60)
                   Sample.inConstructor)
  /\ m_errors (checkAllVariablesInitialized Sample.ast Sample.currentContract
                 (mkLoc 100 150)
                 (set_initializedStateVariables {[ 1 ]} Sample.inConstructor))
     = m_errors (checkAllVariablesInitialized Sample.ast Sample.currentContract
                   (mkLoc 100 150) Sample.inConstructor).
Proof.
  assert (Hrun :
    inlineInitializers Sample.ast Sample.currentContract 2 initialState
    = Ok (set_initializedStateVariables {[ 1 ]} Sample.constructing))
    by (vm_compute; reflexivity).
  assert (Hagree :
    agreeOnImmutables Sample.ast (m_initializedStateVariables Sample.inConstructor) {[ 1 ]}).
  { intros [|varDecl] Himm; [|discriminate Himm].
    simpl. rewrite elem_of_singleton. split; [intros H; inversion H | discriminate]. }
  destruct (initialized_set_holds_all_but_only_immutables_count Sample.ast
              Sample.currentContract) as (Hphase & Huse & Hcheck).
  split; [|split].
  - apply (Hphase 2 initialState _ 1 Hrun).
    + apply list_elem_of_In. simpl. auto.
    + discriminate.
  - apply Huse, Hagree.
  - apply Hcheck, Hagree.
Defined.

(** * Further properties of the validator *)

Lemma set_inLoop_same (st : State) (b : bool) :
  m_inLoop st = b -> set_inLoop b st = st.
Proof. intros <-. destruct st. reflexivity. Qed.

Lemma set_currentConstructor_same (st : State) (c : option nat) :
  m_currentConstructor st = c -> set_currentConstructor c st = st.
Proof. intros <-. destruct st. reflexivity. Qed.

Lemma accept_flags ast m_currentContract fuel node st st' :
  accept ast m_currentContract fuel node st = Ok st' -> flags st' = flags st.
Proof. intros H. apply accept_extends in H. apply H. Qed.

Lemma listAccept_accept_extends ast m_currentContract fuel nodes st st' :
  listAccept (accept ast m_currentContract fuel) nodes st = Ok st' -> extends st st'.
Proof. apply listAccept_extends. intros node s s'. apply accept_extends. Qed.

(** ** Loops *)

(** X1.  A while-statement visits its condition and then its body, each
    starting with the loop flag raised; when it returns, the loop flag is
    what it was before the statement. *)
Theorem while_statement_raises_and_restores_loop_flag
    (ast : AST) (m_currentContract : CurrentContract) (fuel : nat)
    (condition body : ASTNode) (st : State) :
  accept ast m_currentContract (S fuel) (WhileStatement condition body) st =
  (do st1 <- accept ast m_currentContract fuel condition (set_inLoop true st);
   do st2 <- accept ast m_currentContract fuel body (set_inLoop true st1);
   Ok (set_inLoop (m_inLoop st) st2))
  /\ forall st',
       accept ast m_currentContract (S fuel) (WhileStatement condition body) st = Ok st' ->
       m_inLoop st' = m_inLoop st.
Proof.
  split.
  - simpl. unfold visit_WhileStatement.
    destruct (accept ast m_currentContract fuel condition (set_inLoop true st))
      as [st1| |] eqn:Hcondition; simpl; auto.
    apply accept_flags in Hcondition. unfold flags in Hcondition. simpl in Hcondition.
    assert (Hraised : m_inLoop st1 = true) by congruence.
    rewrite (set_inLoop_same st1 true Hraised). reflexivity.
  - simpl. unfold visit_WhileStatement. intros st' H.
    repeat (apply bind_Ok in H; destruct H as (? & _ & H)).
    injection H as <-. reflexivity.
Qed.

(** [while (<literal>) x = <literal>;] in [A]'s constructor. *)
Lemma while_statement_raises_and_restores_loop_flag_witness :
  accept Sample.ast Sample.currentContract 4
    (WhileStatement Sample.literal (Sample.assign_x 60)) Sample.inConstructor
  = Ok (set_initializedStateVariables {[ 0 ]}
          (addErrors [violation (mkLoc 60 61) msgInLoop] Sample.inConstructor))
  /\ m_inLoop
       (set_initializedStateVariables {[ 0 ]}
          (addErrors [violation (mkLoc 60 61) msgInLoop] Sample.inConstructor))
     = m_inLoop Sample.inConstructor.
Proof.
  assert (Hrun :
    accept Sample.ast Sample.currentContract 4
      (WhileStatement Sample.literal (Sample.assign_x 60)) Sample.inConstructor
    = Ok (set_initializedStateVariables {[ 0 ]}
            (addErrors [violation (mkLoc 60 61) msgInLoop] Sample.inConstructor)))
    by (vm_compute; reflexivity).
  split; [exact Hrun|].
  exact (proj2 (while_statement_raises_and_restores_loop_flag Sample.ast
                  Sample.currentContract 3 Sample.literal (Sample.assign_x 60)
                  Sample.inConstructor) _ Hrun).
Defined.

(** ** What every traversal keeps *)

(** X2.  Whatever node is visited, when the visit returns the five flags
    (reading allowed, initialization allowed, in branch, in loop, current
    constructor) are what they were, both sets contain what they contained,
    and the reports made before are still there, in the same order, before
    the new ones. *)
Theorem accept_restores_flags_and_only_adds
    (ast : AST) (m_currentContract : CurrentContract) (fuel : nat)
    (node : ASTNode) (st st' : State) :
  accept ast m_currentContract fuel node st = Ok st' ->
  (m_readingOfImmutableAllowed st' = m_readingOfImmutableAllowed st
   /\ m_initializationOfImmutableAllowed st' = m_initializationOfImmutableAllowed st
   /\ m_inBranch st' = m_inBranch st
   /\ m_inLoop st' = m_inLoop st
   /\ m_currentConstructor st' = m_currentConstructor st)
  /\ m_initializedStateVariables st ⊆ m_initializedStateVariables st'
  /\ m_visitedCallables st ⊆ m_visitedCallables st'
  /\ exists reports, m_errors st' = (m_errors st ++ reports)%list.
Proof.
  intros Hrun. apply accept_extends in Hrun.
  destruct Hrun as [Hflags (Hinitialized & Hvisited & Hreports)].
  unfold flags in Hflags. injection Hflags as Hr Hi Hb Hl Hc.
  repeat split; auto.
Qed.

(** [f] visited while [B] is constructed: [B]'s [f] is entered and its read
    of [x] reported. *)
Lemma accept_restores_flags_and_only_adds_witness :
  let st := Sample.constructing in
  let st' := addErrors [violation (mkLoc 130 131) msgRead]
               (set_visitedCallables {[ FunctionPtr 2 ]} Sample.constructing) in
  (m_readingOfImmutableAllowed st' = m_readingOfImmutableAllowed st
   /\ m_initializationOfImmutableAllowed st' = m_initializationOfImmutableAllowed st
   /\ m_inBranch st' = m_inBranch st
   /\ m_inLoop st' = m_inLoop st
   /\ m_currentConstructor st' = m_currentConstructor st)
  /\ m_initializedStateVariables st ⊆ m_initializedStateVariables st'
  /\ m_visitedCallables st ⊆ m_visitedCallables st'
  /\ exists reports, m_errors st' = (m_errors st ++ reports)%list.
Proof.
  apply (accept_restores_flags_and_only_adds Sample.ast Sample.currentContract 4
           (Identifier Sample.f_reference)).
  vm_compute. reflexivity.
Defined.

(** ** Callables *)

(** X3.  When [visitCallable] returns for a callable, the callable is in the
    visited set, and it stays there: after any further traversal, visiting
    the same callable again returns at once with the state unchanged. *)
Theorem visitCallable_enters_a_callable_once
    (ast : AST) (m_currentContract : CurrentContract) (fuel : nat)
    (c : CallableDeclarationPtr) (st st1 : State) :
  visitCallable ast (accept ast m_currentContract fuel) (CallablePtr c) st = Ok st1 ->
  c ∈ m_visitedCallables st1
  /\ forall (fuel' fuel'' : nat) (nodes : list ASTNode) (st2 : State),
       listAccept (accept ast m_currentContract fuel') nodes st1 = Ok st2 ->
       visitCallable ast (accept ast m_currentContract fuel'') (CallablePtr c) st2 = Ok st2.
Proof.
  intros Hvisit.
  assert (Hin : c ∈ m_visitedCallables st1).
  { unfold visitCallable in Hvisit. case_bool_decide as Hbefore.
    - injection Hvisit as <-. exact Hbefore.
    - rewrite acceptCallable_analyseCallable in Hvisit.
      apply analyseCallable_extends in Hvisit;
        [|intros node s s'; apply accept_extends].
      destruct Hvisit as [_ (_ & Hvisited & _)]. apply Hvisited. simpl.
      apply elem_of_union_l, elem_of_singleton. reflexivity. }
  split; [exact Hin|].
  intros fuel' fuel'' nodes st2 Hnodes.
  apply listAccept_accept_extends in Hnodes.
  destruct Hnodes as [_ (_ & Hvisited & _)].
  unfold visitCallable. rewrite bool_decide_eq_true_2; [reflexivity|].
  apply Hvisited, Hin.
Qed.

(** [B]'s [f] is visited, then [A.f], then [B]'s [f] again. *)
Lemma visitCallable_enters_a_callable_once_witness :
  let st1 := addErrors [violation (mkLoc 130 131) msgRead]
               (set_visitedCallables {[ FunctionPtr 2 ]} Sample.constructing) in
  let st2 := addErrors [violation (mkLoc 130 131) msgRead]
               (set_visitedCallables {[ FunctionPtr 1; FunctionPtr 2 ]}
                  Sample.constructing) in
  FunctionPtr 2 ∈ m_visitedCallables st1
  /\ visitCallable Sample.ast (accept Sample.ast Sample.currentContract 0)
       (CallablePtr (FunctionPtr 2)) st2 = Ok st2.
Proof.
  intros st1 st2.
  destruct (visitCallable_enters_a_callable_once Sample.ast Sample.currentContract 3
              (FunctionPtr 2) Sample.constructing st1) as [Hin Hagain].
  - vm_compute. reflexivity.
  - split; [exact Hin|].
    apply (Hagain 4 0 [Sample.A_f_access] st2).
    vm_compute. reflexivity.
Defined.

(** X4.  [analyseCallable] on a function visits the modifier invocations
    with initialization not allowed and the body with initialization as it
    was on entry; throughout, the current constructor is the function itself
    if it is a constructor and none otherwise, also after callables reached
    from an earlier invocation have been traversed.  When it returns, the
    current constructor and the initialization flag are what they were on
    entry, for a function as for a modifier. *)
Theorem analyseCallable_sets_and_restores_markers
    (ast : AST) (m_currentContract : CurrentContract) (fuel : nat) (p : nat) (st : State) :
  let funcDef := functionDefinition ast p in
  let marker := if isConstructor funcDef then Some p else None in
  let entered := set_initializationOfImmutableAllowed false
                   (set_currentConstructor marker st) in
  analyseCallable ast (accept ast m_currentContract fuel) (FunctionPtr p) st =
    (do st1 <- listAccept (accept ast m_currentContract fuel) (modifiers funcDef) entered;
     do st2 <- match fn_body funcDef with
               | Some body =>
                   accept ast m_currentContract fuel body
                     (set_currentConstructor marker
                        (set_initializationOfImmutableAllowed
                           (m_initializationOfImmutableAllowed st) st1))
               | None =>
                   Ok (set_initializationOfImmutableAllowed
                         (m_initializationOfImmutableAllowed st) st1)
               end;
     Ok (set_currentConstructor (m_currentConstructor st) st2))
  /\ (forall (before after : list ASTNode) (invocation : ASTNode) (st_m : State),
         modifiers funcDef = (before ++ invocation :: after)%list ->
         listAccept (accept ast m_currentContract fuel) before entered = Ok st_m ->
         m_initializationOfImmutableAllowed st_m = false
         /\ m_currentConstructor st_m = marker)
  /\ (forall (c : CallableDeclarationPtr) (st' : State),
         analyseCallable ast (accept ast m_currentContract fuel) c st = Ok st' ->
         m_currentConstructor st' = m_currentConstructor st
         /\ m_initializationOfImmutableAllowed st' = m_initializationOfImmutableAllowed st).
Proof.
  intros funcDef marker entered. split; [|split].
  - unfold analyseCallable. fold funcDef.
    assert (Hentered :
      set_initializationOfImmutableAllowed false
        (if isConstructor funcDef
         then set_currentConstructor (Some p) (set_currentConstructor None st)
         else set_currentConstructor None st) = entered).
    { unfold entered, marker. destruct (isConstructor funcDef); reflexivity. }
    assert (Hprevious :
      m_initializationOfImmutableAllowed
        (if isConstructor funcDef
         then set_currentConstructor (Some p) (set_currentConstructor None st)
         else set_currentConstructor None st) = m_initializationOfImmutableAllowed st).
    { destruct (isConstructor funcDef); reflexivity. }
    cbv zeta. rewrite Hentered, Hprevious.
    destruct (listAccept (accept ast m_currentContract fuel) (modifiers funcDef) entered)
      as [st1| |] eqn:Hmodifiers; simpl; auto.
    apply listAccept_accept_extends in Hmodifiers. destruct Hmodifiers as [Hflags _].
    unfold flags in Hflags. simpl in Hflags.
    assert (Hmarker : m_currentConstructor st1 = marker) by congruence.
    rewrite (set_currentConstructor_same
               (set_initializationOfImmutableAllowed
                  (m_initializationOfImmutableAllowed st) st1) marker Hmarker).
    destruct (fn_body funcDef); reflexivity.
  - intros before after invocation st_m _ Hbefore.
    apply listAccept_accept_extends in Hbefore. destruct Hbefore as [Hflags _].
    unfold flags in Hflags. simpl in Hflags. split; congruence.
  - intros c st' Hrun.
    apply analyseCallable_extends in Hrun; [|intros node s s'; apply accept_extends].
    destruct Hrun as [Hflags _]. unfold flags in Hflags. split; congruence.
Qed.

(** The constructor of [G]: after [m(1)] the markers still stand, and after
    the whole constructor they are back. *)
Lemma analyseCallable_sets_and_restores_markers_witness :
  let entered := set_initializationOfImmutableAllowed false
                   (set_currentConstructor (Some 0) Sample.constructing) in
  let after_first := set_visitedCallables {[ ModifierPtr 0 ]} entered in
  let returned :=
    set_initializedStateVariables {[ 0 ]}
      (addErrors [violation (mkLoc 37 38) msgNotInBody;
                  violation (mkLoc 50 51) msgAlreadyInitialized]
         (set_visitedCallables {[ ModifierPtr 0 ]} Sample.constructing)) in
  (m_initializationOfImmutableAllowed after_first = false
   /\ m_currentConstructor after_first = Some 0)
  /\ (m_currentConstructor returned = m_currentConstructor Sample.constructing
      /\ m_initializationOfImmutableAllowed returned
         = m_initializationOfImmutableAllowed Sample.constructing).
Proof.
  intros entered after_first returned.
  destruct (analyseCallable_sets_and_restores_markers Guarded.ast Guarded.currentContract
              5 0 Sample.constructing) as (_ & Hinvocations & Hreturn).
  split.
  - apply (Hinvocations [Guarded.invoke_m 30 Sample.literal] []
             (Guarded.invoke_m 35 (Guarded.x_assigned 37)) after_first).
    + reflexivity.
    + vm_compute. reflexivity.
  - apply (Hreturn (FunctionPtr 0) returned). vm_compute. reflexivity.
Defined.

(** ** The override resolver *)

Lemma sameNameAndSignature_eq ast origin funcDef :
  sameNameAndSignature ast origin funcDef = true <->
  fn_name (functionDefinition ast funcDef) = fn_name origin
  /\ parameterTypes (functionDefinition ast funcDef) = parameterTypes origin
  /\ returnTypes (functionDefinition ast funcDef) = returnTypes origin.
Proof.
  unfold sameNameAndSignature.
  rewrite !andb_true_iff, String.eqb_eq, !bool_decide_eq_true. tauto.
Qed.

Lemma sameNameAndSignature_trans ast origin funcDef :
  sameNameAndSignature ast origin funcDef = true ->
  forall other,
    sameNameAndSignature ast (functionDefinition ast funcDef) other
    = sameNameAndSignature ast origin other.
Proof.
  rewrite sameNameAndSignature_eq. intros (Hname & Hparams & Hreturns) other.
  unfold sameNameAndSignature. rewrite Hname, Hparams, Hreturns. reflexivity.
Qed.

Lemma sameName_eq ast name modDef :
  sameName ast name modDef = true <-> mod_name (modifierDefinition ast modDef) = name.
Proof. unfold sameName. apply String.eqb_eq. Qed.

Lemma find_agree {A : Type} (f g : A -> bool) (l : list A) :
  (forall x, f x = g x) -> List.find f l = List.find g l.
Proof.
  intros Hfg. induction l as [|x l IH]; simpl; [reflexivity|].
  rewrite Hfg, IH. reflexivity.
Qed.

Lemma in_concat_map {A B : Type} (f : A -> list B) (l : list A) (y : B) :
  In y (concat (map f l)) <-> exists x, In x l /\ In y (f x).
Proof.
  rewrite in_concat. split.
  - intros (ys & Hys & Hy). apply in_map_iff in Hys. destruct Hys as (x & <- & Hx). eauto.
  - intros (x & Hx & Hy). exists (f x). split; [apply in_map, Hx | exact Hy].
Qed.

(** X5.  Resolving the final override of a final override changes nothing:
    [findFinalOverride] is idempotent. *)
Theorem findFinalOverride_idempotent
    (ast : AST) (m_currentContract : CurrentContract) (callable : CallableDeclarationPtr) :
  findFinalOverride ast m_currentContract (findFinalOverride ast m_currentContract callable)
  = findFinalOverride ast m_currentContract callable.
Proof.
  destruct (negb (virtualSemantics ast callable)) eqn:Hvirtual.
  { unfold findFinalOverride. rewrite !Hvirtual. reflexivity. }
  destruct callable as [p|p].
  - destruct (List.find (sameNameAndSignature ast (functionDefinition ast p))
                (concat (map definedFunctions (linearizedBaseContracts m_currentContract))))
      as [q|] eqn:Hfind.
    + assert (Hresolved :
        findFinalOverride ast m_currentContract (FunctionPtr p) = FunctionPtr q).
      { unfold findFinalOverride.
        rewrite Hvirtual, findFunctionInContracts_find, Hfind. reflexivity. }
      rewrite Hresolved. unfold findFinalOverride.
      destruct (negb (virtualSemantics ast (FunctionPtr q))); [reflexivity|].
      rewrite findFunctionInContracts_find.
      pose proof Hfind as Hsome. apply find_some in Hsome. destruct Hsome as [_ Hmatch].
      rewrite (find_agree _ _ _ (sameNameAndSignature_trans ast _ q Hmatch)), Hfind.
      reflexivity.
    + assert (Hresolved :
        findFinalOverride ast m_currentContract (FunctionPtr p) = FunctionPtr p).
      { unfold findFinalOverride.
        rewrite Hvirtual, findFunctionInContracts_find, Hfind. reflexivity. }
      rewrite !Hresolved. reflexivity.
  - destruct (List.find (sameName ast (mod_name (modifierDefinition ast p)))
                (concat (map functionModifiers (linearizedBaseContracts m_currentContract))))
      as [q|] eqn:Hfind.
    + assert (Hresolved :
        findFinalOverride ast m_currentContract (ModifierPtr p) = ModifierPtr q).
      { unfold findFinalOverride.
        rewrite Hvirtual, findModifierInContracts_find, Hfind. reflexivity. }
      rewrite Hresolved. unfold findFinalOverride.
      destruct (negb (virtualSemantics ast (ModifierPtr q))); [reflexivity|].
      rewrite findModifierInContracts_find.
      pose proof Hfind as Hsome. apply find_some in Hsome. destruct Hsome as [_ Hmatch].
      apply sameName_eq in Hmatch. rewrite Hmatch, Hfind. reflexivity.
    + assert (Hresolved :
        findFinalOverride ast m_currentContract (ModifierPtr p) = ModifierPtr p).
      { unfold findFinalOverride.
        rewrite Hvirtual, findModifierInContracts_find, Hfind. reflexivity. }
      rewrite !Hresolved. reflexivity.
Qed.

Lemma findFinalOverride_function ast m_currentContract p :
  findFinalOverride ast m_currentContract (FunctionPtr p) =
  FunctionPtr
    (if fn_virtualSemantics (functionDefinition ast p)
     then default p
            (List.find (sameNameAndSignature ast (functionDefinition ast p))
               (concat (map definedFunctions (linearizedBaseContracts m_currentContract))))
     else p).
Proof.
  unfold findFinalOverride. simpl.
  destruct (fn_virtualSemantics (functionDefinition ast p)); simpl; [|reflexivity].
  rewrite findFunctionInContracts_find. destruct (List.find _ _); reflexivity.
Qed.

Lemma findFinalOverride_modifier ast m_currentContract p :
  findFinalOverride ast m_currentContract (ModifierPtr p) =
  ModifierPtr
    (if mod_virtualSemantics (modifierDefinition ast p)
     then default p
            (List.find (sameName ast (mod_name (modifierDefinition ast p)))
               (concat (map functionModifiers (linearizedBaseContracts m_currentContract))))
     else p).
Proof.
  unfold findFinalOverride. simpl.
  destruct (mod_virtualSemantics (modifierDefinition ast p)); simpl; [|reflexivity].
  rewrite findModifierInContracts_find. destruct (List.find _ _); reflexivity.
Qed.

(** X6.  The final override of a function is a function with the same name,
    parameter types and return types, and the final override of a modifier
    is a modifier with the same name; either it is the callable itself or
    it is declared by a unit of the linearized base list. *)
Theorem findFinalOverride_keeps_kind_name_and_signature
    (ast : AST) (m_currentContract : CurrentContract) :
  (forall p, exists q,
      findFinalOverride ast m_currentContract (FunctionPtr p) = FunctionPtr q
      /\ fn_name (functionDefinition ast q) = fn_name (functionDefinition ast p)
      /\ parameterTypes (functionDefinition ast q) = parameterTypes (functionDefinition ast p)
      /\ returnTypes (functionDefinition ast q) = returnTypes (functionDefinition ast p)
      /\ (q = p
          \/ exists contract,
               In contract (linearizedBaseContracts m_currentContract)
               /\ In q (definedFunctions contract)))
  /\ (forall p, exists q,
         findFinalOverride ast m_currentContract (ModifierPtr p) = ModifierPtr q
         /\ mod_name (modifierDefinition ast q) = mod_name (modifierDefinition ast p)
         /\ (q = p
             \/ exists contract,
                  In contract (linearizedBaseContracts m_currentContract)
                  /\ In q (functionModifiers contract))).
Proof.
  split; intros p.
  - rewrite findFinalOverride_function.
    destruct (fn_virtualSemantics (functionDefinition ast p)); [|exists p; auto 6].
    destruct (List.find _ _) as [q|] eqn:Hfind; simpl; [|exists p; auto 6].
    apply find_some in Hfind. destruct Hfind as [Hin Hmatch].
    apply sameNameAndSignature_eq in Hmatch. destruct Hmatch as (Hn & Hp & Hr).
    apply in_concat_map in Hin.
    exists q. repeat split; auto.
  - rewrite findFinalOverride_modifier.
    destruct (mod_virtualSemantics (modifierDefinition ast p)); [|exists p; auto].
    destruct (List.find _ _) as [q|] eqn:Hfind; simpl; [|exists p; auto].
    apply find_some in Hfind. destruct Hfind as [Hin Hmatch].
    apply sameName_eq in Hmatch. apply in_concat_map in Hin.
    exists q. repeat split; auto.
Qed.

(** X7.  Resolution looks at the name and the signature only: two virtual
    functions with the same name, parameter types and return types, one of
    which is declared by a unit of the linearized base list, have the same
    final override. *)
Theorem findFinalOverride_by_name_and_signature
    (ast : AST) (m_currentContract : CurrentContract) (p1 p2 : nat)
    (contract : ContractDefinition) :
  fn_virtualSemantics (functionDefinition ast p1) = true ->
  fn_virtualSemantics (functionDefinition ast p2) = true ->
  fn_name (functionDefinition ast p2) = fn_name (functionDefinition ast p1) ->
  parameterTypes (functionDefinition ast p2) = parameterTypes (functionDefinition ast p1) ->
  returnTypes (functionDefinition ast p2) = returnTypes (functionDefinition ast p1) ->
  In contract (linearizedBaseContracts m_currentContract) ->
  In p2 (definedFunctions contract) ->
  findFinalOverride ast m_currentContract (FunctionPtr p1)
  = findFinalOverride ast m_currentContract (FunctionPtr p2).
Proof.
  intros Hv1 Hv2 Hname Hparams Hreturns Hcontract Hdeclared.
  rewrite !findFinalOverride_function, Hv1, Hv2.
  assert (Hmatch : sameNameAndSignature ast (functionDefinition ast p1) p2 = true)
    by (apply sameNameAndSignature_eq; auto).
  rewrite (find_agree _ _ _ (sameNameAndSignature_trans ast _ p2 Hmatch)).
  destruct (List.find _ _) as [q|] eqn:Hfind; [reflexivity|].
  assert (Hin : In p2 (concat (map definedFunctions
                                  (linearizedBaseContracts m_currentContract))))
    by (apply in_concat_map; eauto).
  pose proof (find_none _ _ Hfind p2 Hin) as Hno.
  rewrite Hmatch in Hno. discriminate.
Qed.

(** [A]'s [f] and [B]'s [f] both resolve to [C]'s [f]. *)
Lemma findFinalOverride_by_name_and_signature_witness :
  findFinalOverride Overrides.ast Overrides.currentContract (FunctionPtr 1)
  = findFinalOverride Overrides.ast Overrides.currentContract (FunctionPtr 2).
Proof.
  apply (findFinalOverride_by_name_and_signature Overrides.ast Overrides.currentContract
           1 2 Overrides.B); try reflexivity; simpl; auto.
Defined.

(** X8.  The most derived declaration wins: when no unit in front of
    [contract] in the linearized base list declares a function with the
    name and signature of a virtual function, and [contract] declares one,
    the final override is a function of [contract] with that name and
    signature; likewise for a virtual modifier and its name. *)
Theorem findFinalOverride_most_derived_declaration_wins
    (ast : AST) (m_currentContract : CurrentContract)
    (front back : list ContractDefinition) (contract : ContractDefinition) :
  linearizedBaseContracts m_currentContract = (front ++ contract :: back)%list ->
  (forall p q,
      fn_virtualSemantics (functionDefinition ast p) = true ->
      (forall unit other,
          In unit front -> In other (definedFunctions unit) ->
          sameNameAndSignature ast (functionDefinition ast p) other = false) ->
      In q (definedFunctions contract) ->
      sameNameAndSignature ast (functionDefinition ast p) q = true ->
      exists q',
        findFinalOverride ast m_currentContract (FunctionPtr p) = FunctionPtr q'
        /\ In q' (definedFunctions contract)
        /\ sameNameAndSignature ast (functionDefinition ast p) q' = true)
  /\ (forall p q,
         mod_virtualSemantics (modifierDefinition ast p) = true ->
         (forall unit other,
             In unit front -> In other (functionModifiers unit) ->
             mod_name (modifierDefinition ast other) <> mod_name (modifierDefinition ast p)) ->
         In q (functionModifiers contract) ->
         mod_name (modifierDefinition ast q) = mod_name (modifierDefinition ast p) ->
         exists q',
           findFinalOverride ast m_currentContract (ModifierPtr p) = ModifierPtr q'
           /\ In q' (functionModifiers contract)
           /\ mod_name (modifierDefinition ast q')
              = mod_name (modifierDefinition ast p)).
Proof.
  intros Hlinearized. split; intros p q Hvirtual Hfront Hq Hmatch.
  - rewrite findFinalOverride_function, Hvirtual, Hlinearized.
    rewrite map_app, concat_app, find_app_concat.
    destruct (List.find _ (concat (map definedFunctions front))) as [early|] eqn:Hearly.
    { apply find_some in Hearly. destruct Hearly as [Hin Hyes].
      apply in_concat_map in Hin. destruct Hin as (unit & Hunit & Hin).
      rewrite (Hfront unit early Hunit Hin) in Hyes. discriminate. }
    simpl map. simpl concat. rewrite find_app_concat.
    destruct (List.find _ (definedFunctions contract)) as [q'|] eqn:Hhere.
    + apply find_some in Hhere. destruct Hhere as [Hin Hyes].
      exists q'. simpl. auto.
    + pose proof (find_none _ _ Hhere q Hq) as Hno.
      rewrite Hmatch in Hno. discriminate.
  - rewrite findFinalOverride_modifier, Hvirtual, Hlinearized.
    rewrite map_app, concat_app, find_app_concat.
    destruct (List.find _ (concat (map functionModifiers front))) as [early|] eqn:Hearly.
    { apply find_some in Hearly. destruct Hearly as [Hin Hyes].
      apply in_concat_map in Hin. destruct Hin as (unit & Hunit & Hin).
      apply sameName_eq in Hyes. exfalso. exact (Hfront unit early Hunit Hin Hyes). }
    simpl map. simpl concat. rewrite find_app_concat.
    destruct (List.find _ (functionModifiers contract)) as [q'|] eqn:Hhere.
    + apply find_some in Hhere. destruct Hhere as [Hin Hyes].
      apply sameName_eq in Hyes. exists q'. simpl. auto.
    + pose proof (find_none _ _ Hhere q Hq) as Hno.
      apply sameName_eq in Hmatch. rewrite Hmatch in Hno. discriminate.
Qed.

(** [A]'s [f] resolves into [C], the unit under analysis, and so does [A]'s
    [only]. *)
Lemma findFinalOverride_most_derived_declaration_wins_witness :
  (exists q',
      findFinalOverride Overrides.ast Overrides.currentContract (FunctionPtr 1)
      = FunctionPtr q'
      /\ In q' (definedFunctions Overrides.C)
      /\ sameNameAndSignature Overrides.ast (functionDefinition Overrides.ast 1) q' = true)
  /\ (exists q',
         findFinalOverride Overrides.ast Overrides.currentContract (ModifierPtr 1)
         = ModifierPtr q'
         /\ In q' (functionModifiers Overrides.C)
         /\ mod_name (modifierDefinition Overrides.ast q')
            = mod_name (modifierDefinition Overrides.ast 1)).
Proof.
  destruct (findFinalOverride_most_derived_declaration_wins Overrides.ast
              Overrides.currentContract [] [Overrides.B; Overrides.A] Overrides.C eq_refl)
    as [Hfunction Hmodifier].
  split.
  - apply (Hfunction 1 3).
    + reflexivity.
    + intros unit other [].
    + simpl. auto.
    + reflexivity.
  - apply (Hmodifier 1 2).
    + reflexivity.
    + intros unit other [].
    + simpl. auto.
    + reflexivity.
Defined.

(** ** The completeness check and the end of the analysis *)

Lemma filter_nil_iff {A : Type} (f : A -> bool) (l : list A) :
  List.filter f l = [] <-> forall x, In x l -> f x = false.
Proof.
  induction l as [|x l IH]; simpl.
  - split; [intros _ y [] | reflexivity].
  - destruct (f x) eqn:Hx; split.
    + discriminate.
    + intros H. specialize (H x (or_introl eq_refl)). congruence.
    + intros Hnil y [<- | Hy]; [exact Hx | apply IH; assumption].
    + intros H. apply IH. intros y Hy. apply H. right. exact Hy.
Qed.

Lemma unresolvedImmutables_nil ast m_currentContract initialized :
  unresolvedImmutables ast m_currentContract initialized = [] <->
  forall varDecl,
    In varDecl (stateVariablesIncludingInherited m_currentContract) ->
    immutable (variableDeclaration ast varDecl) = true ->
    varDecl ∈ initialized.
Proof.
  unfold unresolvedImmutables. rewrite filter_nil_iff.
  split; intros H v Hin.
  - intros Himm. specialize (H v Hin). rewrite Himm in H. simpl in H.
    apply negb_false_iff, bool_decide_eq_true in H. exact H.
  - destruct (immutable (variableDeclaration ast v)) eqn:Himm; [|reflexivity].
    simpl. apply negb_false_iff, bool_decide_eq_true. apply H; auto.
Qed.

Lemma checkAllVariablesInitialized_unresolved ast m_currentContract loc st :
  checkAllVariablesInitialized ast m_currentContract loc st =
  addErrors
    (map (incomplete ast loc)
       (unresolvedImmutables ast m_currentContract (m_initializedStateVariables st))) st.
Proof. apply checkVariables_filter. Qed.

(** X9.  The completeness check reports nothing exactly when every immutable
    state variable of the unit, inherited ones included, is in the
    initialized set; it then returns the state as it was. *)
Theorem checkAllVariablesInitialized_silent_iff_complete
    (ast : AST) (m_currentContract : CurrentContract) (loc : SourceLocation) (st : State) :
  checkAllVariablesInitialized ast m_currentContract loc st = st
  <-> forall varDecl,
        In varDecl (stateVariablesIncludingInherited m_currentContract) ->
        immutable (variableDeclaration ast varDecl) = true ->
        varDecl ∈ m_initializedStateVariables st.
Proof.
  rewrite checkAllVariablesInitialized_unresolved, <- unresolvedImmutables_nil.
  split.
  - intros Hsame. apply (f_equal m_errors) in Hsame. simpl in Hsame.
    rewrite <- (app_nil_r (m_errors st)) in Hsame at 2.
    apply app_inv_head in Hsame. apply map_eq_nil in Hsame. exact Hsame.
  - intros ->. apply addErrors_nil.
Qed.

(** After the analysis of [B] every immutable is in the set, and a further
    completeness check changes nothing. *)
Lemma checkAllVariablesInitialized_silent_iff_complete_witness :
  checkAllVariablesInitialized Sample.ast Sample.currentContract (mkLoc 100 150)
    Sample.analysed = Sample.analysed.
Proof.
  apply (proj2 (checkAllVariablesInitialized_silent_iff_complete Sample.ast
                  Sample.currentContract (mkLoc 100 150) Sample.analysed)).
  intros varDecl [<- | [<- | []]] Himm.
  - vm_compute. reflexivity.
  - discriminate Himm.
Defined.

Lemma acceptInitializer_extends ast m_currentContract fuel stateVar st st' :
  acceptInitializer ast m_currentContract fuel stateVar st = Ok st' -> extends st st'.
Proof.
  unfold acceptInitializer.
  destruct (value (variableDeclaration ast stateVar)) as [initializer|].
  - rewrite bind_Ok. intros (st1 & Hvisit & Hinsert).
    apply accept_extends in Hvisit.
    case_bool_decide; [discriminate|]. injection Hinsert as <-.
    eapply extends_trans; [exact Hvisit | apply extends_insert_initialized].
  - intros [= <-]. apply extends_refl.
Qed.

Lemma visitConstructor_extends ast m_currentContract fuel contract st st' :
  visitConstructor ast m_currentContract fuel contract st = Ok st' -> extends st st'.
Proof.
  unfold visitConstructor. destruct (constructor contract).
  - apply top_visitCallable_extends.
  - intros [= <-]. apply extends_refl.
Qed.

(** The four phases of [analyze], one after the other. *)
Lemma analyze_phases ast m_currentContract fuel st st' :
  analyze ast m_currentContract fuel st = Ok st' ->
  exists st1 st2 st3 st4,
    inlineInitializers ast m_currentContract fuel st = Ok st1
    /\ constructorBodies ast m_currentContract fuel st1 = Ok st2
    /\ baseConstructorArguments ast m_currentContract fuel st2 = Ok st3
    /\ functionAndModifierBodies ast m_currentContract fuel st3 = Ok st4
    /\ st' = checkAllVariablesInitialized ast m_currentContract
               (contract_location m_currentContract) st4.
Proof.
  unfold analyze. intros H.
  apply bind_Ok in H. destruct H as (st1 & H1 & H).
  apply bind_Ok in H. destruct H as (st2 & H2 & H).
  apply bind_Ok in H. destruct H as (st3 & H3 & H).
  apply bind_Ok in H. destruct H as (st4 & H4 & H).
  injection H as <-. exists st1, st2, st3, st4. auto.
Qed.

Lemma inlineInitializers_extends ast m_currentContract fuel st st1 :
  inlineInitializers ast m_currentContract fuel st = Ok st1 ->
  extends (set_initializationOfImmutableAllowed true
             (set_readingOfImmutableAllowed false st)) st1.
Proof.
  unfold inlineInitializers. apply forEach_extends.
  intros v s s' _. apply acceptInitializer_extends.
Qed.

Lemma constructorBodies_extends ast m_currentContract fuel st st' :
  constructorBodies ast m_currentContract fuel st = Ok st' -> extends st st'.
Proof.
  unfold constructorBodies. apply forEach_extends.
  intros c s s' _. apply visitConstructor_extends.
Qed.

Lemma baseConstructorArguments_extends ast m_currentContract fuel st st' :
  baseConstructorArguments ast m_currentContract fuel st = Ok st' ->
  extends (set_initializationOfImmutableAllowed false st) st'.
Proof.
  unfold baseConstructorArguments. apply forEach_extends.
  intros c s s' _. apply acceptBaseArguments_extends.
Qed.

Lemma functionAndModifierBodies_extends ast m_currentContract fuel st st' :
  functionAndModifierBodies ast m_currentContract fuel st = Ok st' ->
  extends (set_readingOfImmutableAllowed true st) st'.
Proof.
  unfold functionAndModifierBodies. apply forEach_extends.
  intros c s s' _. apply visitFunctionsAndModifiers_extends.
Qed.

(** Before the final completeness check: the flags of phase 4 and what has
    been added since the start. *)
Lemma analyze_before_check ast m_currentContract fuel st st1 st2 st3 st4 :
  inlineInitializers ast m_currentContract fuel st = Ok st1 ->
  constructorBodies ast m_currentContract fuel st1 = Ok st2 ->
  baseConstructorArguments ast m_currentContract fuel st2 = Ok st3 ->
  functionAndModifierBodies ast m_currentContract fuel st3 = Ok st4 ->
  flags st4 = (true, false, m_inBranch st, m_inLoop st, m_currentConstructor st)
  /\ grows st st4.
Proof.
  intros H1 H2 H3 H4.
  apply inlineInitializers_extends in H1. apply constructorBodies_extends in H2.
  apply baseConstructorArguments_extends in H3.
  apply functionAndModifierBodies_extends in H4.
  destruct H1 as [F1 (I1 & V1 & E1)], H2 as [F2 (I2 & V2 & E2)],
           H3 as [F3 (I3 & V3 & E3)], H4 as [F4 (I4 & V4 & E4)].
  unfold flags, grows in *. simpl in *.
  injection F1 as ? ? ? ? ?. injection F2 as ? ? ? ? ?.
  injection F3 as ? ? ? ? ?. injection F4 as ? ? ? ? ?.
  split; [f_equal; [f_equal; [f_equal; [f_equal|]|]|]; congruence|].
  repeat split; repeat (etrans; [eassumption|]); reflexivity.
Qed.

(** X10.  If [analyze] returns without having added a report, every
    immutable state variable of the unit, inherited ones included, is in
    the initialized set it returns. *)
Theorem analyze_without_reports_is_complete
    (ast : AST) (m_currentContract : CurrentContract) (fuel : nat) (st st' : State) :
  analyze ast m_currentContract fuel st = Ok st' ->
  m_errors st' = m_errors st ->
  forall varDecl,
    In varDecl (stateVariablesIncludingInherited m_currentContract) ->
    immutable (variableDeclaration ast varDecl) = true ->
    varDecl ∈ m_initializedStateVariables st'.
Proof.
  intros Hrun Hsilent.
  apply analyze_phases in Hrun.
  destruct Hrun as (st1 & st2 & st3 & st4 & H1 & H2 & H3 & H4 & ->).
  destruct (analyze_before_check _ _ _ _ _ _ _ _ H1 H2 H3 H4)
    as [_ (_ & _ & [earlier Hearlier])].
  rewrite checkAllVariablesInitialized_unresolved in *. simpl in *.
  apply unresolvedImmutables_nil.
  rewrite Hearlier, <- app_assoc in Hsilent.
  rewrite <- (app_nil_r (m_errors st)) in Hsilent at 2.
  apply app_inv_head, app_eq_nil in Hsilent. destruct Hsilent as [_ Hnone].
  apply map_eq_nil in Hnone. exact Hnone.
Qed.

(** X11.  When [analyze] returns, reading is allowed and initialization is
    not, the branch flag, the loop flag and the current constructor are what
    they were on entry, both sets contain what they contained, and the
    reports made before the analysis are still there, first and in order. *)
Theorem analyze_final_flags_and_growth
    (ast : AST) (m_currentContract : CurrentContract) (fuel : nat) (st st' : State) :
  analyze ast m_currentContract fuel st = Ok st' ->
  (m_readingOfImmutableAllowed st' = true
   /\ m_initializationOfImmutableAllowed st' = false
   /\ m_inBranch st' = m_inBranch st
   /\ m_inLoop st' = m_inLoop st
   /\ m_currentConstructor st' = m_currentConstructor st)
  /\ m_initializedStateVariables st ⊆ m_initializedStateVariables st'
  /\ m_visitedCallables st ⊆ m_visitedCallables st'
  /\ exists reports, m_errors st' = (m_errors st ++ reports)%list.
Proof.
  intros Hrun. apply analyze_phases in Hrun.
  destruct Hrun as (st1 & st2 & st3 & st4 & H1 & H2 & H3 & H4 & ->).
  destruct (analyze_before_check _ _ _ _ _ _ _ _ H1 H2 H3 H4)
    as [Hflags (Hinitialized & Hvisited & [earlier Hearlier])].
  rewrite checkAllVariablesInitialized_unresolved. simpl.
  unfold flags in Hflags. injection Hflags as Hr Hi Hb Hl Hc.
  repeat split; auto.
  rewrite Hearlier, <- app_assoc. eauto.
Qed.

Lemma sample_analysed :
  analyze Sample.ast Sample.currentContract 6 initialState = Ok Sample.analysed.
Proof. vm_compute. reflexivity. Qed.

(** The analysis of [B] reports nothing, and [x] is in the set. *)
Lemma analyze_without_reports_is_complete_witness :
  0 ∈ m_initializedStateVariables Sample.analysed.
Proof.
  apply (analyze_without_reports_is_complete Sample.ast Sample.currentContract 6
           initialState Sample.analysed sample_analysed eq_refl 0).
  - simpl. auto.
  - reflexivity.
Defined.

(** The analysis of [B], started outside any branch, loop and constructor. *)
Lemma analyze_final_flags_and_growth_witness :
  (m_readingOfImmutableAllowed Sample.analysed = true
   /\ m_initializationOfImmutableAllowed Sample.analysed = false
   /\ m_inBranch Sample.analysed = m_inBranch initialState
   /\ m_inLoop Sample.analysed = m_inLoop initialState
   /\ m_currentConstructor Sample.analysed = m_currentConstructor initialState)
  /\ m_initializedStateVariables initialState ⊆ m_initializedStateVariables Sample.analysed
  /\ m_visitedCallables initialState ⊆ m_visitedCallables Sample.analysed
  /\ exists reports, m_errors Sample.analysed = (m_errors initialState ++ reports)%list.
Proof.
  exact (analyze_final_flags_and_growth Sample.ast Sample.currentContract 6
           initialState Sample.analysed sample_analysed).
Defined.

Lemma forEach_keeps {A : Type} (body : A -> State -> Result) (Q : A -> State -> Prop)
    (l : list A) :
  (forall x s s', In x l -> body x s = Ok s' -> extends s s' /\ Q x s') ->
  (forall x s s', Q x s -> grows s s' -> Q x s') ->
  forall st st', forEach l body st = Ok st' -> forall x, In x l -> Q x st'.
Proof.
  intros Hbody Hmono. induction l as [|y l IH]; intros st st'; simpl.
  - intros _ x [].
  - rewrite bind_Ok. intros (st1 & Hhead & Htail) x Hx.
    assert (Hrest : extends st1 st').
    { revert Htail. apply forEach_extends. intros z s s' Hz Hrun.
      apply (Hbody z s s'); [right; apply list_elem_of_In, Hz | exact Hrun]. }
    destruct Hx as [<- | Hx].
    + apply (Hmono y st1 st'); [|apply Hrest].
      apply (Hbody y st st1); [left; reflexivity | exact Hhead].
    + apply (IH (fun z s s' Hz => Hbody z s s' (or_intror Hz)) st1 st' Htail x Hx).
Qed.

Lemma top_visitCallable_records ast m_currentContract fuel c st st' :
  visitCallable ast (accept ast m_currentContract fuel) (CallablePtr c) st = Ok st' ->
  extends st st' /\ c ∈ m_visitedCallables st'.
Proof.
  intros Hrun. split; [eapply top_visitCallable_extends; eauto|].
  unfold visitCallable in Hrun. case_bool_decide as Hbefore.
  - injection Hrun as <-. exact Hbefore.
  - rewrite acceptCallable_analyseCallable in Hrun.
    apply analyseCallable_extends in Hrun; [|intros node s s'; apply accept_extends].
    destruct Hrun as [_ (_ & Hvisited & _)]. apply Hvisited. simpl.
    apply elem_of_union_l, elem_of_singleton. reflexivity.
Qed.

Lemma visited_grows c st st' :
  c ∈ m_visitedCallables st -> grows st st' -> c ∈ m_visitedCallables st'.
Proof. intros Hc (_ & Hvisited & _). apply Hvisited, Hc. Qed.

(** X12.  When [analyze] returns, the visited set holds the constructor,
    every declared function and every declared modifier of every unit of
    the linearized base list. *)
Theorem analyze_visits_every_declared_callable
    (ast : AST) (m_currentContract : CurrentContract) (fuel : nat) (st st' : State)
    (contract : ContractDefinition) :
  analyze ast m_currentContract fuel st = Ok st' ->
  In contract (linearizedBaseContracts m_currentContract) ->
  (forall ctor, constructor contract = Some ctor -> FunctionPtr ctor ∈ m_visitedCallables st')
  /\ (forall funcDef,
         In funcDef (definedFunctions contract) -> FunctionPtr funcDef ∈ m_visitedCallables st')
  /\ (forall modDef,
         In modDef (functionModifiers contract) -> ModifierPtr modDef ∈ m_visitedCallables st').
Proof.
  intros Hrun Hcontract. apply analyze_phases in Hrun.
  destruct Hrun as (st1 & st2 & st3 & st4 & H1 & H2 & H3 & H4 & ->).
  rewrite checkAllVariablesInitialized_unresolved. simpl.
  assert (Hreversed : In contract (linearizeContracts m_currentContract))
    by (unfold linearizeContracts; rewrite <- in_rev; exact Hcontract).
  pose proof (baseConstructorArguments_extends _ _ _ _ _ H3) as [_ G3].
  pose proof (functionAndModifierBodies_extends _ _ _ _ _ H4) as [_ G4].
  split; [|split].
  - intros ctor Hctor.
    assert (Hafter : FunctionPtr ctor ∈ m_visitedCallables st2).
    { apply (forEach_keeps (visitConstructor ast m_currentContract fuel)
               (fun c s => forall k, constructor c = Some k ->
                                     FunctionPtr k ∈ m_visitedCallables s)
               (linearizeContracts m_currentContract)) with (st := st1) (x := contract);
        auto.
      - intros c s s' _ Hvisit. split; [eapply visitConstructor_extends; eauto|].
        intros k Hk. unfold visitConstructor in Hvisit. rewrite Hk in Hvisit.
        apply top_visitCallable_records in Hvisit. apply Hvisit.
      - intros c s s' Hs Hgrows k Hk. eapply visited_grows; eauto. }
    apply (visited_grows _ st3); [|exact G4].
    apply (visited_grows _ (set_initializationOfImmutableAllowed false st2)); [|exact G3].
    exact Hafter.
  - intros funcDef Hdeclared.
    apply (forEach_keeps (visitFunctionsAndModifiers ast m_currentContract fuel)
             (fun c s => forall f, In f (definedFunctions c) ->
                                   FunctionPtr f ∈ m_visitedCallables s)
             (linearizeContracts m_currentContract))
      with (st := set_readingOfImmutableAllowed true st3) (x := contract); auto.
    + intros c s s' _ Hvisit. split; [eapply visitFunctionsAndModifiers_extends; eauto|].
      unfold visitFunctionsAndModifiers in Hvisit.
      apply bind_Ok in Hvisit. destruct Hvisit as (s1 & Hfunctions & Hmodifiers).
      intros f Hf. apply (visited_grows _ s1).
      * apply (forEach_keeps _ (fun f s => FunctionPtr f ∈ m_visitedCallables s)
                 (definedFunctions c)) with (st := s) (x := f) in Hfunctions; auto.
        -- intros g u u' _ Hg. apply top_visitCallable_records in Hg. exact Hg.
        -- intros g u u' Hu Hgrows. eapply visited_grows; eauto.
      * revert Hmodifiers. intros Hmodifiers.
        apply forEach_extends in Hmodifiers; [apply Hmodifiers|].
        intros m u u' _. apply top_visitCallable_extends.
    + intros c s s' Hs Hgrows f Hf. eapply visited_grows; eauto.
  - intros modDef Hdeclared.
    apply (forEach_keeps (visitFunctionsAndModifiers ast m_currentContract fuel)
             (fun c s => forall m, In m (functionModifiers c) ->
                                   ModifierPtr m ∈ m_visitedCallables s)
             (linearizeContracts m_currentContract))
      with (st := set_readingOfImmutableAllowed true st3) (x := contract); auto.
    + intros c s s' _ Hvisit. split; [eapply visitFunctionsAndModifiers_extends; eauto|].
      unfold visitFunctionsAndModifiers in Hvisit.
      apply bind_Ok in Hvisit. destruct Hvisit as (s1 & Hfunctions & Hmodifiers).
      intros m Hm.
      apply (forEach_keeps _ (fun m s => ModifierPtr m ∈ m_visitedCallables s)
               (functionModifiers c)) with (st := s1) (x := m) in Hmodifiers; auto.
      * intros g u u' _ Hg. apply top_visitCallable_records in Hg. exact Hg.
      * intros g u u' Hu Hgrows. eapply visited_grows; eauto.
    + intros c s s' Hs Hgrows m Hm. eapply visited_grows; eauto.
Qed.

(** After the analysis of [B]: [A]'s constructor and [A]'s [f]. *)
Lemma analyze_visits_every_declared_callable_witness :
  FunctionPtr 0 ∈ m_visitedCallables Sample.analysed
  /\ FunctionPtr 1 ∈ m_visitedCallables Sample.analysed.
Proof.
  destruct (analyze_visits_every_declared_callable Sample.ast Sample.currentContract 6
              initialState Sample.analysed Sample.A sample_analysed)
    as (Hconstructor & Hfunctions & _).
  - simpl. auto.
  - split.
    + apply Hconstructor. reflexivity.
    + apply Hfunctions. simpl. auto.
Defined.

(** ** Units without immutables *)

Section Quiet.

Variable ast : AST.
Variable m_currentContract : CurrentContract.
Hypothesis no_immutable : forall p, immutable (variableDeclaration ast p) = false.

Lemma analyseVariableDeclaration_quiet v e st :
  analyseVariableDeclaration ast v e st = st.
Proof.
  unfold analyseVariableDeclaration. rewrite no_immutable.
  rewrite orb_true_r. reflexivity.
Qed.

Lemma checkAllVariablesInitialized_quiet loc st :
  checkAllVariablesInitialized ast m_currentContract loc st = st.
Proof.
  rewrite checkAllVariablesInitialized_unresolved.
  assert (Hnone : unresolvedImmutables ast m_currentContract
                    (m_initializedStateVariables st) = []).
  { apply unresolvedImmutables_nil. intros v _ Himm.
    rewrite no_immutable in Himm. discriminate. }
  rewrite Hnone. apply addErrors_nil.
Qed.

Lemma forEach_quiet {A : Type} (body : A -> State -> Result) (l : list A) :
  (forall x s s', body x s = Ok s' -> m_errors s' = m_errors s) ->
  forall st st', forEach l body st = Ok st' -> m_errors st' = m_errors st.
Proof.
  intros Hbody. induction l as [|x l IH]; intros st st'; simpl.
  - intros [= <-]. reflexivity.
  - rewrite bind_Ok. intros (st1 & H1 & H2).
    rewrite (IH _ _ H2). eapply Hbody; eauto.
Qed.

Section QuietVisit.

Variable acc : ASTNode -> State -> Result.
Hypothesis acc_quiet : forall node st st', acc node st = Ok st' -> m_errors st' = m_errors st.

Lemma option_accept_quiet (o : option ASTNode) st st' :
  match o with Some node => acc node st | None => Ok st end = Ok st' ->
  m_errors st' = m_errors st.
Proof. destruct o; [apply acc_quiet | intros [= <-]; reflexivity]. Qed.

Lemma analyseCallable_quiet c st st' :
  analyseCallable ast acc c st = Ok st' -> m_errors st' = m_errors st.
Proof.
  unfold analyseCallable. rewrite bind_Ok. intros (st2 & Hinner & [= <-]). simpl.
  destruct c as [p|p].
  - apply bind_Ok in Hinner. destruct Hinner as (st1 & Hmodifiers & Hbody).
    apply (forEach_quiet acc _ acc_quiet) in Hmodifiers.
    apply option_accept_quiet in Hbody. simpl in *.
    rewrite Hbody, Hmodifiers.
    destruct (isConstructor (functionDefinition ast p)); reflexivity.
  - apply acc_quiet in Hinner. exact Hinner.
Qed.

Lemma visitCallable_quiet d st st' :
  visitCallable ast acc d st = Ok st' -> m_errors st' = m_errors st.
Proof.
  unfold visitCallable. destruct d as [v|c|o]; try discriminate.
  case_bool_decide; [intros [= <-]; reflexivity|].
  rewrite acceptCallable_analyseCallable. intros Hrun.
  apply analyseCallable_quiet in Hrun. exact Hrun.
Qed.

Lemma visit_quiet node st st' :
  visit ast m_currentContract acc node st = Ok st' -> m_errors st' = m_errors st.
Proof.
  destruct node as [e|e name operand|c t f|c b|loc r|ty children]; simpl.
  - unfold visit_Identifier. rewrite bind_Ok. intros (st1 & H1 & H2).
    assert (Hsecond : st' = st1).
    { destruct (referencedDeclaration (annotation e)) as [[v|cd|o]|];
        injection H2 as <-; [apply analyseVariableDeclaration_quiet | | |]; reflexivity. }
    subst st'.
    destruct (referencedDeclaration (annotation e)) as [[v|cd|o]|];
      try (injection H1 as <-; reflexivity).
    eapply visitCallable_quiet; eauto.
  - unfold visit_MemberAccess.
    destruct (_ && _ && _); [intros [= <-]; reflexivity|].
    rewrite bind_Ok. intros (st1 & H1 & H2). apply acc_quiet in H1. rewrite <- H1.
    destruct (referencedDeclaration (annotation e)) as [[v|cd|o]|];
      try (injection H2 as <-; rewrite analyseVariableDeclaration_quiet; reflexivity);
      (destruct (type (annotation e)) as [kind [decl|]| |];
       try (injection H2 as <-; reflexivity);
       destruct kind;
       try (injection H2 as <-; reflexivity);
       eapply visitCallable_quiet; eauto).
  - unfold visit_IfStatement. intros H.
    apply bind_Ok in H. destruct H as (st1 & H1 & H).
    apply bind_Ok in H. destruct H as (st2 & H2 & H).
    apply bind_Ok in H. destruct H as (st3 & H3 & [= <-]).
    apply acc_quiet in H1, H2. apply option_accept_quiet in H3. simpl in *. congruence.
  - unfold visit_WhileStatement. intros H.
    apply bind_Ok in H. destruct H as (st1 & H1 & H).
    apply bind_Ok in H. destruct H as (st2 & H2 & [= <-]).
    apply acc_quiet in H1, H2. simpl in *. congruence.
  - unfold visit_Return. destruct (m_currentConstructor st).
    + rewrite bind_Ok. intros (st1 & H1 & [= <-]).
      rewrite checkAllVariablesInitialized_quiet. apply option_accept_quiet in H1. exact H1.
    + apply option_accept_quiet.
  - apply forEach_quiet, acc_quiet.
Qed.

End QuietVisit.

Lemma accept_quiet fuel node st st' :
  accept ast m_currentContract fuel node st = Ok st' -> m_errors st' = m_errors st.
Proof.
  revert node st st'. induction fuel as [|fuel IH]; intros node st st'; simpl.
  - discriminate.
  - apply visit_quiet. exact IH.
Qed.

Lemma analyze_quiet fuel st st' :
  analyze ast m_currentContract fuel st = Ok st' -> m_errors st' = m_errors st.
Proof.
  pose proof (accept_quiet fuel) as Haccept.
  assert (Hcallable : forall d s s',
            visitCallable ast (accept ast m_currentContract fuel) d s = Ok s' ->
            m_errors s' = m_errors s)
    by (intros d s s'; apply visitCallable_quiet, Haccept).
  intros Hrun. apply analyze_phases in Hrun.
  destruct Hrun as (st1 & st2 & st3 & st4 & H1 & H2 & H3 & H4 & ->).
  rewrite checkAllVariablesInitialized_quiet.
  apply forEach_quiet in H4.
  2:{ intros c s s'. unfold visitFunctionsAndModifiers. rewrite bind_Ok.
      intros (s1 & Hf & Hm). apply forEach_quiet in Hf, Hm; [congruence| |];
        intros x u u'; apply Hcallable. }
  apply forEach_quiet in H3.
  2:{ intros c s s'. unfold acceptBaseArguments. apply forEach_quiet.
      intros spec u u'. destruct (arguments spec); [|intros [= <-]; reflexivity].
      apply forEach_quiet, Haccept. }
  apply forEach_quiet in H2.
  2:{ intros c s s'. unfold visitConstructor.
      destruct (constructor c); [apply Hcallable | intros [= <-]; reflexivity]. }
  apply forEach_quiet in H1.
  2:{ intros v s s'. unfold acceptInitializer.
      destruct (value (variableDeclaration ast v)); [|intros [= <-]; reflexivity].
      rewrite bind_Ok. intros (s1 & Hs1 & Hinsert). apply Haccept in Hs1.
      case_bool_decide; [discriminate|]. injection Hinsert as <-. exact Hs1. }
  simpl in *. congruence.
Qed.

End Quiet.

(** X13.  In a program none of whose variables is immutable, no traversal
    and no analysis ever adds a report, whatever the flags are and whatever
    is assigned where. *)
Theorem no_immutables_no_reports
    (ast : AST) (m_currentContract : CurrentContract) (fuel : nat) (st st' : State) :
  (forall p, immutable (variableDeclaration ast p) = false) ->
  (forall node, accept ast m_currentContract fuel node st = Ok st' ->
                m_errors st' = m_errors st)
  /\ (analyze ast m_currentContract fuel st = Ok st' -> m_errors st' = m_errors st).
Proof.
  intros Hnone. split.
  - intros node. apply accept_quiet, Hnone.
  - apply analyze_quiet, Hnone.
Qed.

(** The analysis of [P], whose function assigns the state variable [y]. *)
Lemma no_immutables_no_reports_witness :
  m_errors Plain.analysed = m_errors initialState.
Proof.
  apply (no_immutables_no_reports Plain.ast Plain.currentContract 6
           initialState Plain.analysed).
  - intros p. reflexivity.
  - vm_compute. reflexivity.
Defined.

(** ** Inline initializers *)

Lemma forEach_acceptInitializer_fresh ast m_currentContract fuel vars st st' :
  forEach vars (acceptInitializer ast m_currentContract fuel) st = Ok st' ->
  NoDup (List.filter (hasInitializer ast) vars)
  /\ forall stateVar,
       In stateVar vars -> hasInitializer ast stateVar = true ->
       stateVar ∉ m_initializedStateVariables st.
Proof.
  revert st. induction vars as [|v vars IH]; intros st; simpl.
  - intros _. split; [constructor | intros x []].
  - rewrite bind_Ok. intros (st1 & Hhead & Htail).
    destruct (IH st1 Htail) as [Hnodup Hfresh].
    pose proof (acceptInitializer_records _ _ _ _ _ _ Hhead) as [(Hsub & _) Hrecorded].
    assert (Hv : hasInitializer ast v = true -> v ∉ m_initializedStateVariables st).
    { unfold hasInitializer, acceptInitializer in *.
      destruct (value (variableDeclaration ast v)) as [initializer|]; [|discriminate].
      intros _. apply bind_Ok in Hhead. destruct Hhead as (s & Hvisit & Hinsert).
      case_bool_decide as Hin; [discriminate|].
      apply accept_extends in Hvisit. destruct Hvisit as [_ (Hgrow & _)].
      intros Hbefore. apply Hin, Hgrow, Hbefore. }
    split.
    + destruct (hasInitializer ast v) eqn:Hinit; [|exact Hnodup].
      constructor; [|exact Hnodup].
      intros Hdup. apply list_elem_of_In, filter_In in Hdup. destruct Hdup as [Hin _].
      apply (Hfresh v Hin Hinit). apply Hrecorded.
      unfold hasInitializer in Hinit.
      destruct (value (variableDeclaration ast v)); [discriminate | discriminate Hinit].
    + intros x [<- | Hx] Hinit; [apply Hv, Hinit|].
      intros Hbefore. apply (Hfresh x Hx Hinit), Hsub, Hbefore.
Qed.

(** X14.  Phase 1 returns only if its insertions are all new: the state
    variables with an inline initializer are pairwise distinct and none of
    them was in the initialized set when the phase started; otherwise the
    assertion of line 35 stops the analysis. *)
Theorem inlineInitializers_requires_fresh_variables
    (ast : AST) (m_currentContract : CurrentContract) (fuel : nat) (st st' : State) :
  inlineInitializers ast m_currentContract fuel st = Ok st' ->
  NoDup (List.filter (hasInitializer ast) (stateVariablesIncludingInherited m_currentContract))
  /\ forall stateVar,
       In stateVar (stateVariablesIncludingInherited m_currentContract) ->
       hasInitializer ast stateVar = true ->
       stateVar ∉ m_initializedStateVariables st.
Proof.
  unfold inlineInitializers. intros Hrun.
  apply forEach_acceptInitializer_fresh in Hrun. exact Hrun.
Qed.

(** Phase 1 for [B]: [y] is the one variable with an initializer. *)
Lemma inlineInitializers_requires_fresh_variables_witness :
  NoDup (List.filter (hasInitializer Sample.ast)
           (stateVariablesIncludingInherited Sample.currentContract))
  /\ forall stateVar,
       In stateVar (stateVariablesIncludingInherited Sample.currentContract) ->
       hasInitializer Sample.ast stateVar = true ->
       stateVar ∉ m_initializedStateVariables initialState.
Proof.
  apply (inlineInitializers_requires_fresh_variables Sample.ast Sample.currentContract 2
           initialState (set_initializedStateVariables {[ 1 ]} Sample.constructing)).
  vm_compute. reflexivity.
Defined.

(** ** Writing twice *)

Lemma plain_write_records ast v e st :
  isStateVariable (variableDeclaration ast v) = true ->
  immutable (variableDeclaration ast v) = true ->
  plainWrite e = true ->
  v ∈ m_initializedStateVariables (analyseVariableDeclaration ast v e st).
Proof.
  unfold plainWrite. intros Hstate Himm Hwrite.
  unfold analyseVariableDeclaration. rewrite Hstate, Himm, Hwrite. cbv zeta. simpl.
  repeat match goal with
         | |- context [match m_currentConstructor st with _ => _ end] =>
             destruct (m_currentConstructor st)
         | |- context [if bool_decide ?P then _ else _] =>
             destruct (bool_decide_reflect P)
         | |- context [if ?c then _ else _] => destruct c
         end; simpl in *;
    solve [ assumption | apply elem_of_union_l, elem_of_singleton; reflexivity ].
Qed.

Lemma plain_write_when_recorded ast v e st :
  isStateVariable (variableDeclaration ast v) = true ->
  immutable (variableDeclaration ast v) = true ->
  plainWrite e = true ->
  v ∈ m_initializedStateVariables st ->
  exists reports,
    length reports <= 1
    /\ analyseVariableDeclaration ast v e st =
       addErrors (reports ++ [violation (location e) msgAlreadyInitialized]) st.
Proof.
  unfold plainWrite. intros Hstate Himm Hwrite Hin.
  unfold analyseVariableDeclaration. rewrite Hstate, Himm, Hwrite. cbv zeta. simpl.
  assert (Hrecorded : forall es,
    (if bool_decide (v ∈ m_initializedStateVariables (addErrors es st))
     then typeError (location e) None msgAlreadyInitialized (addErrors es st)
     else set_initializedStateVariables
            ({[ v ]} ∪ m_initializedStateVariables (addErrors es st)) (addErrors es st))
    = addErrors (es ++ [violation (location e) msgAlreadyInitialized]) st).
  { intros es. simpl. rewrite bool_decide_eq_true_2 by exact Hin.
    rewrite typeError_addErrors, addErrors_addErrors. reflexivity. }
  destruct (m_currentConstructor st) as [ctor|].
  - destruct (negb (fn_contract (functionDefinition ast ctor)
                    =? var_contract (variableDeclaration ast v))%Z);
      [eexists [_]; split; [simpl; lia | apply (Hrecorded [_])]|].
    destruct (m_inLoop st);
      [eexists [_]; split; [simpl; lia | apply (Hrecorded [_])]|].
    destruct (m_inBranch st);
      [eexists [_]; split; [simpl; lia | apply (Hrecorded [_])]|].
    destruct (negb (m_initializationOfImmutableAllowed st));
      [eexists [_]; split; [simpl; lia | apply (Hrecorded [_])]|].
    exists []. split; [simpl; lia|].
    pose proof (Hrecorded []) as Hnone. rewrite addErrors_nil in Hnone. exact Hnone.
  - eexists [_]. split; [simpl; lia | apply (Hrecorded [_])].
Qed.

(** X15.  Once an immutable state variable has been written, by a plain
    write (legal or not) or by its inline initializer in phase 1, every
    later plain write to it, whatever has been traversed in between, reports
    "already initialized" as its last report, after at most one other
    report, and changes nothing but the reports. *)
Theorem later_plain_write_is_reported
    (ast : AST) (m_currentContract : CurrentContract) (v : nat) (e2 : Expression) :
  isStateVariable (variableDeclaration ast v) = true ->
  immutable (variableDeclaration ast v) = true ->
  plainWrite e2 = true ->
  (forall (e1 : Expression) (fuel : nat) (nodes : list ASTNode) (st st2 : State),
      plainWrite e1 = true ->
      listAccept (accept ast m_currentContract fuel) nodes
        (analyseVariableDeclaration ast v e1 st) = Ok st2 ->
      exists reports,
        length reports <= 1
        /\ analyseVariableDeclaration ast v e2 st2 =
           addErrors (reports ++ [violation (location e2) msgAlreadyInitialized]) st2)
  /\ (forall (fuel fuel' : nat) (nodes : list ASTNode) (st st1 st2 : State),
         In v (stateVariablesIncludingInherited m_currentContract) ->
         hasInitializer ast v = true ->
         inlineInitializers ast m_currentContract fuel st = Ok st1 ->
         listAccept (accept ast m_currentContract fuel') nodes st1 = Ok st2 ->
         exists reports,
           length reports <= 1
           /\ analyseVariableDeclaration ast v e2 st2 =
              addErrors (reports ++ [violation (location e2) msgAlreadyInitialized]) st2).
Proof.
  intros Hstate Himm Hwrite. split.
  - intros e1 fuel nodes st st2 Hfirst Hbetween.
    apply plain_write_when_recorded; auto.
    apply listAccept_accept_extends in Hbetween.
    destruct Hbetween as [_ (Hinitialized & _)].
    apply Hinitialized, plain_write_records; auto.
  - intros fuel fuel' nodes st st1 st2 Hdeclared Hinit Hphase Hbetween.
    apply plain_write_when_recorded; auto.
    apply listAccept_accept_extends in Hbetween.
    destruct Hbetween as [_ (Hinitialized & _)]. apply Hinitialized.
    unfold inlineInitializers in Hphase.
    apply forEach_acceptInitializer_records in Hphase. destruct Hphase as [_ Hall].
    apply Hall; [apply list_elem_of_In, Hdeclared|].
    unfold hasInitializer in Hinit.
    destruct (value (variableDeclaration ast v)); [discriminate | discriminate Hinit].
Qed.

(** [x = ...] twice in [A]'s constructor, and [x = ...] in the constructor
    of [I] after the inline initializer of [x]. *)
Lemma later_plain_write_is_reported_witness :
  (exists reports,
      length reports <= 1
      /\ analyseVariableDeclaration Sample.ast 0 (Sample.x_write 70)
           (analyseVariableDeclaration Sample.ast 0 (Sample.x_write 60)
              Sample.inConstructor) =
         addErrors (reports ++ [violation (mkLoc 70 71) msgAlreadyInitialized])
           (analyseVariableDeclaration Sample.ast 0 (Sample.x_write 60)
              Sample.inConstructor))
  /\ (exists reports,
         length reports <= 1
         /\ analyseVariableDeclaration Inline.ast 0 (Sample.x_write 60)
              (set_initializedStateVariables {[ 0 ]} Sample.constructing) =
            addErrors (reports ++ [violation (mkLoc 60 61) msgAlreadyInitialized])
              (set_initializedStateVariables {[ 0 ]} Sample.constructing)).
Proof.
  split.
  - apply (proj1 (later_plain_write_is_reported Sample.ast Sample.currentContract 0
                    (Sample.x_write 70) eq_refl eq_refl eq_refl)
             (Sample.x_write 60) 0 [] Sample.inConstructor); reflexivity.
  - apply (proj2 (later_plain_write_is_reported Inline.ast Inline.currentContract 0
                    (Sample.x_write 60) eq_refl eq_refl eq_refl)
             2 0 [] initialState (set_initializedStateVariables {[ 0 ]} Sample.constructing)).
    + simpl. auto.
    + reflexivity.
    + vm_compute. reflexivity.
    + reflexivity.
Defined.

(** ** Termination *)

(** X16.  The visited set bounds the analysis, also when callables call each
    other in a cycle.  If a finite set [scope] holds every callable the
    hierarchy declares or references (after override resolution), and the
    initializers, base-constructor arguments, modifier invocations and
    bodies are at most [bound] deep, then at depth
    [bound + size scope * (bound + 2)] the analysis does not run out of
    depth, and any greater depth gives the same result. *)
Theorem analysis_terminates_on_a_closed_hierarchy
    (ast : AST) (m_currentContract : CurrentContract)
    (scope : gset CallableDeclarationPtr) (bound fuel fuel' : nat) (st : State) :
  closed ast m_currentContract scope bound ->
  rootsBounded ast m_currentContract scope bound ->
  bound + size scope * (bound + 2) <= fuel ->
  fuel <= fuel' ->
  analyze ast m_currentContract fuel st <> OutOfFuel
  /\ analyze ast m_currentContract fuel' st = analyze ast m_currentContract fuel st.
Proof.
  intros Hclosed Hroots Hfuel Hmore.
  destruct (analyze_settles ast m_currentContract scope bound fuel fuel' st
              Hclosed Hroots Hfuel Hmore) as [Hsame Hrun].
  split; assumption.
Qed.

Lemma recursion_closed :
  closed Recursion.ast Recursion.currentContract Recursion.scope 3.
Proof.
  intros c node Hc Hnode. unfold Recursion.scope in Hc.
  rewrite elem_of_union, !elem_of_singleton in Hc.
  destruct Hc as [-> | ->]; simpl in Hnode; destruct Hnode as [<- | []];
    (split; [|simpl; lia]); simpl; repeat split;
    unfold Recursion.scope; rewrite elem_of_union, !elem_of_singleton; auto.
Qed.

Lemma recursion_rootsBounded :
  rootsBounded Recursion.ast Recursion.currentContract Recursion.scope 3.
Proof.
  split.
  - intros stateVar initializer [].
  - intros contract [<- | []]. simpl.
    split; [discriminate|].
    split.
    + intros funcDef [<- | [<- | []]];
        unfold Recursion.scope; rewrite elem_of_union, !elem_of_singleton; auto.
    + split; [intros modDef [] | intros inheritSpec args arg []].
Qed.

(** [even] and [odd], which call each other. *)
Lemma analysis_terminates_on_a_closed_hierarchy_witness :
  analyze Recursion.ast Recursion.currentContract 13 initialState <> OutOfFuel
  /\ analyze Recursion.ast Recursion.currentContract 20 initialState
     = analyze Recursion.ast Recursion.currentContract 13 initialState.
Proof.
  apply (analysis_terminates_on_a_closed_hierarchy Recursion.ast Recursion.currentContract
           Recursion.scope 3 13 20 initialState recursion_closed recursion_rootsBounded).
  - assert (Hsize : size Recursion.scope = 2) by reflexivity.
    rewrite Hsize. simpl. lia.
  - lia.
Defined.

(** ** Phase 4 and the visited set *)

Lemma forEach_unchanged {A : Type} (body : A -> State -> Result) (l : list A) (st : State) :
  (forall x, In x l -> body x st = Ok st) -> forEach l body st = Ok st.
Proof.
  induction l as [|x l IH]; intros Hbody; simpl; [reflexivity|].
  rewrite (Hbody x (or_introl eq_refl)). simpl.
  apply IH. intros y Hy. apply Hbody. right. exact Hy.
Qed.

(** X17.  A callable that is already in the visited set is skipped by phase
    4: if every function and modifier declared along the linearized base
    list has been visited before (from a constructor, say), phase 4 only
    sets the reading flag, reports nothing, and traverses no body under its
    own flags. *)
Theorem functionAndModifierBodies_skips_visited_callables
    (ast : AST) (m_currentContract : CurrentContract) (fuel : nat) (st : State) :
  (forall contract,
      In contract (linearizedBaseContracts m_currentContract) ->
      (forall funcDef, In funcDef (definedFunctions contract) ->
                       FunctionPtr funcDef ∈ m_visitedCallables st)
      /\ (forall modDef, In modDef (functionModifiers contract) ->
                         ModifierPtr modDef ∈ m_visitedCallables st)) ->
  functionAndModifierBodies ast m_currentContract fuel st
  = Ok (set_readingOfImmutableAllowed true st).
Proof.
  intros Hvisited. unfold functionAndModifierBodies.
  apply forEach_unchanged. intros contract Hcontract.
  unfold linearizeContracts in Hcontract. rewrite <- in_rev in Hcontract.
  destruct (Hvisited contract Hcontract) as [Hfunctions Hmodifiers].
  unfold visitFunctionsAndModifiers.
  rewrite forEach_unchanged.
  - simpl. apply forEach_unchanged. intros modDef Hm.
    unfold visitCallable. rewrite bool_decide_eq_true_2; [reflexivity|].
    simpl. apply Hmodifiers, Hm.
  - intros funcDef Hf.
    unfold visitCallable. rewrite bool_decide_eq_true_2; [reflexivity|].
    simpl. apply Hfunctions, Hf.
Qed.

(** Phase 4 for [B] once more, after the analysis has visited everything. *)
Lemma functionAndModifierBodies_skips_visited_callables_witness :
  functionAndModifierBodies Sample.ast Sample.currentContract 0 Sample.analysed
  = Ok (set_readingOfImmutableAllowed true Sample.analysed).
Proof.
  apply functionAndModifierBodies_skips_visited_callables.
  intros contract [<- | [<- | []]]; simpl; split.
  - intros funcDef [<- | []]. vm_compute. reflexivity.
  - intros modDef [].
  - intros funcDef [<- | [<- | []]]; vm_compute; reflexivity.
  - intros modDef [].
Defined.

(** ** Where a use is reported *)

(** X18.  One use of a variable makes at most two reports, each at the
    location of the use and without secondary location; it changes no flag
    and not the visited set, and it adds at most the variable itself to the
    initialized set. *)
Theorem analyseVariableDeclaration_reports_at_the_use_site
    (ast : AST) (v : nat) (e : Expression) (st : State) :
  exists reports,
    length reports <= 2
    /\ Forall (fun r => err_location r = location e /\ err_secondary r = None) reports
    /\ m_errors (analyseVariableDeclaration ast v e st) = (m_errors st ++ reports)%list
    /\ flags (analyseVariableDeclaration ast v e st) = flags st
    /\ m_visitedCallables (analyseVariableDeclaration ast v e st) = m_visitedCallables st
    /\ (m_initializedStateVariables (analyseVariableDeclaration ast v e st)
        = m_initializedStateVariables st
        \/ m_initializedStateVariables (analyseVariableDeclaration ast v e st)
           = {[ v ]} ∪ m_initializedStateVariables st).
Proof.
  unfold analyseVariableDeclaration. cbv zeta.
  repeat match goal with
         | |- context [match m_currentConstructor st with _ => _ end] =>
             destruct (m_currentConstructor st)
         | |- context [if ?c then _ else _] => destruct c
         end; simpl;
    first
      [ exists []; simpl; rewrite app_nil_r;
        repeat split; auto; lia
      | eexists [_]; simpl;
        repeat split; auto; solve [lia | repeat constructor; auto]
      | eexists [_; _]; simpl; rewrite <- app_assoc; simpl;
        repeat split; auto; solve [lia | repeat constructor; auto] ].
Qed.

(** ** Phases 1 and 2 *)

(** X19.  Phase 1 takes the state variables in their order and visits every
    inline initializer with reading not allowed and initialization allowed;
    phase 2 takes the ancestors most basic first, entering the constructor
    of a unit after those of all units behind it in the linearized base
    list, still under the same two flags. *)
Theorem initializers_and_constructors_under_construction_flags
    (ast : AST) (m_currentContract : CurrentContract) (fuel : nat) (st : State) :
  (forall (before after : list nat) (stateVar : nat) (st_v : State),
      stateVariablesIncludingInherited m_currentContract
      = (before ++ stateVar :: after)%list ->
      forEach before (acceptInitializer ast m_currentContract fuel)
        (set_initializationOfImmutableAllowed true
           (set_readingOfImmutableAllowed false st)) = Ok st_v ->
      m_readingOfImmutableAllowed st_v = false
      /\ m_initializationOfImmutableAllowed st_v = true
      /\ inlineInitializers ast m_currentContract fuel st =
         (do st1 <- acceptInitializer ast m_currentContract fuel stateVar st_v;
          forEach after (acceptInitializer ast m_currentContract fuel) st1))
  /\ (forall (moreDerived moreBasic : list ContractDefinition)
             (contract : ContractDefinition) (st1 st_c : State),
         linearizedBaseContracts m_currentContract
         = (moreDerived ++ contract :: moreBasic)%list ->
         inlineInitializers ast m_currentContract fuel st = Ok st1 ->
         forEach (rev moreBasic) (visitConstructor ast m_currentContract fuel) st1
         = Ok st_c ->
         m_readingOfImmutableAllowed st_c = false
         /\ m_initializationOfImmutableAllowed st_c = true
         /\ constructorBodies ast m_currentContract fuel st1 =
            (do st2 <- visitConstructor ast m_currentContract fuel contract st_c;
             forEach (rev moreDerived) (visitConstructor ast m_currentContract fuel) st2)).
Proof.
  split.
  - intros before after stateVar st_v Hvars Hbefore.
    assert (Hflags : flags st_v
                     = flags (set_initializationOfImmutableAllowed true
                                (set_readingOfImmutableAllowed false st))).
    { apply forEach_extends in Hbefore; [apply Hbefore|].
      intros v s s' _. apply acceptInitializer_extends. }
    unfold flags in Hflags. simpl in Hflags. injection Hflags as Hr Hi _ _ _.
    repeat split; auto.
    unfold inlineInitializers. rewrite Hvars, forEach_app, Hbefore. reflexivity.
  - intros moreDerived moreBasic contract st1 st_c Hlinearized Hphase Hbasic.
    assert (Hflags1 : flags st1
                      = flags (set_initializationOfImmutableAllowed true
                                 (set_readingOfImmutableAllowed false st))).
    { apply inlineInitializers_extends in Hphase. apply Hphase. }
    assert (Hflags : flags st_c = flags st1).
    { apply forEach_extends in Hbasic; [apply Hbasic|].
      intros c s s' _. apply visitConstructor_extends. }
    rewrite Hflags1 in Hflags. unfold flags in Hflags. simpl in Hflags.
    injection Hflags as Hr Hi _ _ _.
    repeat split; auto.
    unfold constructorBodies, linearizeContracts.
    rewrite Hlinearized, rev_app_distr. simpl rev.
    rewrite <- app_assoc. simpl app.
    rewrite forEach_app, Hbasic. reflexivity.
Qed.

(** [B]: the initializer of [y] after [x], and the constructor of [A]. *)
Lemma initializers_and_constructors_under_construction_flags_witness :
  (m_readingOfImmutableAllowed Sample.constructing = false
   /\ m_initializationOfImmutableAllowed Sample.constructing = true
   /\ inlineInitializers Sample.ast Sample.currentContract 2 initialState =
      (do st1 <- acceptInitializer Sample.ast Sample.currentContract 2 1
                   Sample.constructing;
       forEach [] (acceptInitializer Sample.ast Sample.currentContract 2) st1))
  /\ (let st1 := set_initializedStateVariables {[ 1 ]} Sample.constructing in
      m_readingOfImmutableAllowed st1 = false
      /\ m_initializationOfImmutableAllowed st1 = true
      /\ constructorBodies Sample.ast Sample.currentContract 2 st1 =
         (do st2 <- visitConstructor Sample.ast Sample.currentContract 2 Sample.A st1;
          forEach (rev [Sample.B])
            (visitConstructor Sample.ast Sample.currentContract 2) st2)).
Proof.
  destruct (initializers_and_constructors_under_construction_flags Sample.ast
              Sample.currentContract 2 initialState) as [Hinitializers Hconstructors].
  split.
  - apply (Hinitializers [0] [] 1 Sample.constructing); reflexivity.
  - apply (Hconstructors [Sample.B] [] Sample.A
             (set_initializedStateVariables {[ 1 ]} Sample.constructing)).
    + reflexivity.
    + vm_compute. reflexivity.
    + reflexivity.
Defined.
